(** * Route optimisation and day clustering of the travel planner

    A shallow embedding of [route_optimizer.py] and of the route assembly of
    [app.py], with the properties the specification states about them, and
    of the callers of the optimiser in [traffic_api.py] and
    [travel_planner.py].

    Conventions of the embedding
    - A Python float is an exact rational ([Qc], canonical fractions, so that
      [=] is numeric equality).  Rounding errors of binary floating point are
      outside the model.
    - [geopy.distance.geodesic(p, q).kilometers] is a third-party function.
      It is a parameter ([geodesic]) of every definition that calls it: a
      call returns a number of kilometres or raises.  The theorems assume of
      it only that it returns on coordinates in range
      ([returns_on_valid]).
    - A Python exception is a value [Raise e]; a loop that needs more
      iterations than the model was given stops with [OutOfFuel].
    - The routing services of [traffic_api.py] are reached over HTTP.  They
      are parameters too ([osrm_get], [google_get]): a request gives the
      parsed answer, or nothing when the request or the parsing raises. *)

From Stdlib Require Import QArith Qcanon Qround Qcabs Lqa.
From stdpp Require Import gmap strings list fin_maps numbers sorting pretty.

(* ================================================================== *)
(** * Part I: definitions *)
(* ================================================================== *)

(** ** Outcomes of a Python call *)

Inductive exn : Type := IndexError | ValueError | KeyError.

Inductive res (A : Type) : Type :=
  | Ret (a : A)
  | Raise (e : exn)
  | OutOfFuel.
Arguments Ret {A} a.
Arguments Raise {A} e.
Arguments OutOfFuel {A}.

#[global] Instance res_ret : MRet res := @Ret.
#[global] Instance res_bind : MBind res := λ A B k m,
  match m with
  | Ret a => k a
  | Raise e => Raise e
  | OutOfFuel => OutOfFuel
  end.

(** [l[i]] for a non-negative index. *)
Definition index {A} (l : list A) (i : nat) : res A :=
  match l !! i with
  | Some x => Ret x
  | None => Raise IndexError
  end.

(** [min(iterable, key=key)]: the keys are computed once, in iteration order,
    and the element kept is replaced only by one with a strictly smaller
    key.  On an empty iterable Python raises [ValueError]. *)
Fixpoint min_scan {A} (key : A → res Qc) (best : A) (kbest : Qc) (rest : list A)
  : res A :=
  match rest with
  | [] => Ret best
  | x :: rest' =>
      kx ← key x;
      if decide (kx < kbest)%Qc
      then min_scan key x kx rest'
      else min_scan key best kbest rest'
  end.

Definition py_min {A} (key : A → res Qc) (l : list A) : res A :=
  match l with
  | [] => Raise ValueError
  | x :: rest => kx ← key x; min_scan key x kx rest
  end.

(** A set of small non-negative integers, as CPython iterates it: an integer
    hashes to itself and [remove] never moves an entry, so the elements of
    [set(range(n))] come out in increasing order, also after removals.  The
    set is the increasing list of its elements. *)
Definition set_remove (x : nat) (s : list nat) : res (list nat) :=
  if decide (x ∈ s) then Ret (filter (λ y, y ≠ x) s) else Raise KeyError.

(** ** Coordinates and the distance primitive *)

Abbreviation coord := (Qc * Qc)%type.

(** Latitude within [-90, 90] and longitude within [-180, 180] (section 3
    of the specification). *)
Definition valid_coordinate (c : coord) : Prop :=
  (Qc_of_Z (-90) ≤ c.1 ∧ c.1 ≤ Qc_of_Z 90)%Qc ∧
  (Qc_of_Z (-180) ≤ c.2 ∧ c.2 ≤ Qc_of_Z 180)%Qc.

#[global] Instance valid_coordinate_dec c : Decision (valid_coordinate c).
Proof. unfold valid_coordinate. apply _. Defined.

(** What is assumed of the library: a distance for every two coordinates in
    range. *)
Definition returns_on_valid (geodesic : coord → coord → res Qc) : Prop :=
  ∀ a b, valid_coordinate a → valid_coordinate b → ∃ d, geodesic a b = Ret d.

(** The distance the library returns for two coordinates (0 where it
    raises). *)
Definition km_of (geodesic : coord → coord → res Qc) (a b : coord) : Qc :=
  match geodesic a b with
  | Ret d => d
  | _ => 0%Qc
  end.

Section Router.

(** [geodesic((lat1, lon1), (lat2, lon2)).kilometers] *)
Variable geodesic : coord → coord → res Qc.

Definition calculate_distance (lat1 lon1 lat2 lon2 : Qc) : res Qc :=
  geodesic (lat1, lon1) (lat2, lon2).

(** The key of the [min] at line 50: distance from [locations[current]] to
    [locations[i]]. *)
Definition step_key (locations : list coord) (current i : nat) : res Qc :=
  c ← index locations current;
  q ← index locations i;
  calculate_distance c.1 c.2 q.1 q.2.

(** The key of the [min] at line 40: distance from [start] to
    [locations[i]]. *)
Definition start_key (locations : list coord) (start : coord) (i : nat)
  : res Qc :=
  q ← index locations i;
  calculate_distance start.1 start.2 q.1 q.2.

(** The [while unvisited] loop, lines 49-56. *)
Fixpoint visit_loop (fuel : nat) (locations : list coord)
    (unvisited : list nat) (current : nat) (route : list nat)
  : res (list nat) :=
  match unvisited with
  | [] => Ret route
  | _ :: _ =>
      match fuel with
      | O => OutOfFuel
      | S fuel' =>
          nearest ← py_min (step_key locations current) unvisited;
          unvisited' ← set_remove nearest unvisited;
          visit_loop fuel' locations unvisited' nearest (route ++ [nearest])
      end
  end.

Definition nearest_neighbor_route (locations : list coord)
    (start : option coord) : res (list nat) :=
  match locations with
  | [] => Ret []
  | [_] => Ret [0]
  | _ =>
      let n := length locations in
      let unvisited := seq 0 n in
      current ← match start with
                | Some s => py_min (start_key locations s) (seq 0 n)
                | None => Ret 0
                end;
      unvisited ← set_remove current unvisited;
      visit_loop n locations unvisited current [current]
  end.

End Router.

Section RouteSpec.

(** The distance in kilometres between two coordinates. *)
Variable geodesic_km : coord → coord → Qc.

(** *** What the specification asks of a route *)

(** The coordinate of an index of the list (the origin for an index out of
    the list, which no route contains). *)
Definition coord_at (locations : list coord) (i : nat) : coord :=
  default (0%Qc, 0%Qc) (locations !! i).

(** [k] is the candidate of [cands] nearest to the point [p], the lowest
    index winning a tie. *)
Definition nearest_to (locations : list coord) (p : coord)
    (cands : list nat) (k : nat) : Prop :=
  k ∈ cands ∧
  ∀ j, j ∈ cands →
    (geodesic_km p (coord_at locations k) ≤ geodesic_km p (coord_at locations j))%Qc ∧
    (geodesic_km p (coord_at locations j) = geodesic_km p (coord_at locations k) → k ≤ j).

(** How the first element of the route is chosen (section 4.2, step 2). *)
Definition first_choice (locations : list coord) (start : option coord)
    (first : nat) : Prop :=
  match start with
  | Some s => nearest_to locations s (seq 0 (length locations)) first
  | None => first = 0
  end.

(** The greedy walk of section 4.2, step 3: each element of [tail] is the
    unvisited index nearest to the one before it. *)
Fixpoint greedy_walk (locations : list coord) (current : nat)
    (unvisited : list nat) (tail : list nat) : Prop :=
  match tail with
  | [] => unvisited = []
  | k :: tail' =>
      nearest_to locations (coord_at locations current) unvisited k ∧
      greedy_walk locations k (filter (λ y, y ≠ k) unvisited) tail'
  end.

End RouteSpec.


(** ** Venue dictionaries *)

(** A venue is a Python [dict] with string keys.  Every key of a venue
    record holds either a number (latitude, longitude, lat, lng, price,
    rating, distance_to_next) or a text (name, type, address, day, time,
    meal); the number fields and the text fields are kept in two maps. *)
Record pydict : Type := PyDict {
  nums : gmap string Qc;
  strs : gmap string string
}.

(** [d.get(k, dflt)] for a numeric field. *)
Definition get_num (d : pydict) (k : string) (dflt : Qc) : Qc :=
  default dflt (nums d !! k).

(** [d.get(k, dflt)] for a text field. *)
Definition get_str (d : pydict) (k : string) (dflt : string) : string :=
  default dflt (strs d !! k).

(** [d[k] = v] for a number [v]. *)
Definition set_num (d : pydict) (k : string) (v : Qc) : pydict :=
  PyDict (<[k := v]> (nums d)) (strs d).

(** [k in d] *)
Definition has_key (d : pydict) (k : string) : Prop :=
  is_Some (nums d !! k) ∨ is_Some (strs d !! k).

(** [(loc.get('latitude', 0), loc.get('longitude', 0))] *)
Definition coords_of (loc : pydict) : coord :=
  (get_num loc "latitude" 0%Qc, get_num loc "longitude" 0%Qc).

(** The coordinate a venue is read at is in range. *)
Definition valid_venue (loc : pydict) : Prop :=
  valid_coordinate (coords_of loc).

#[global] Instance valid_venue_dec loc : Decision (valid_venue loc).
Proof. unfold valid_venue. apply _. Defined.

(** [l.pop(i)]: the element at [i] and the list without it. *)
Definition py_pop {A} (l : list A) (i : nat) : res (A * list A) :=
  match l !! i with
  | Some x => Ret (x, delete i l)
  | None => Raise IndexError
  end.

Section Clusterer.

Variable geodesic : coord → coord → res Qc.

(** [cluster_by_proximity] writes to no venue and works on a copy of the
    list, so the venues are taken by value here. *)

(** The inner loop of [cluster_by_proximity], lines 123-134: [i] walks over
    [unassigned]; a venue within [max_distance_km] of the cluster centre is
    popped and appended to [cluster], any other is stepped over. *)
Fixpoint scan_loop (fuel : nat) (cluster_center : coord) (max_distance_km : Qc)
    (unassigned cluster : list pydict) (i : nat)
  : res (list pydict * list pydict) :=
  if decide (i < length unassigned) then
    match fuel with
    | O => OutOfFuel
    | S fuel' =>
        loc ← index unassigned i;
        dist ← calculate_distance geodesic cluster_center.1 cluster_center.2
                 (get_num loc "latitude" 0%Qc) (get_num loc "longitude" 0%Qc);
        if decide (dist ≤ max_distance_km)%Qc then
          '(popped, unassigned') ← py_pop unassigned i;
          scan_loop fuel' cluster_center max_distance_km unassigned'
            (cluster ++ [popped]) i
        else
          scan_loop fuel' cluster_center max_distance_km unassigned cluster (S i)
    end
  else Ret (cluster, unassigned).

(** The outer loop, lines 117-136. *)
Fixpoint cluster_loop (fuel : nat) (max_distance_km : Qc)
    (unassigned : list pydict) (clusters : list (list pydict))
  : res (list (list pydict)) :=
  match unassigned with
  | [] => Ret clusters
  | _ :: _ =>
      match fuel with
      | O => OutOfFuel
      | S fuel' =>
          '(seed, unassigned) ← py_pop unassigned 0;
          let cluster := [seed] in
          c0 ← index cluster 0;
          let cluster_center :=
            (get_num c0 "latitude" 0%Qc, get_num c0 "longitude" 0%Qc) in
          '(cluster, unassigned) ←
            scan_loop (length unassigned) cluster_center max_distance_km
              unassigned cluster 0;
          cluster_loop fuel' max_distance_km unassigned (clusters ++ [cluster])
      end
  end.

Definition cluster_by_proximity (locations : list pydict)
    (max_distance_km : Qc) : res (list (list pydict)) :=
  match locations with
  | [] => Ret []
  | _ :: _ => cluster_loop (length locations) max_distance_km locations []
  end.

End Clusterer.

Section ClusterSpec.

Variable geodesic_km : coord → coord → Qc.

(** *** What the specification asks of a clustering *)

(** [v] is within the radius of the seed [seed]. *)
Definition within_radius (max_distance_km : Qc) (seed v : pydict) : Prop :=
  (geodesic_km (coords_of seed) (coords_of v) ≤ max_distance_km)%Qc.

(** A cluster is its seed followed by venues within the radius of the
    seed. *)
Definition seed_ball (max_distance_km : Qc) (cluster : list pydict) : Prop :=
  ∃ seed members,
    cluster = seed :: members ∧
    Forall (within_radius max_distance_km seed) members.

(** Every venue of a later cluster is out of the radius of the seed of
    every earlier cluster: membership was decided against seeds only. *)
Fixpoint far_from_earlier_seeds (max_distance_km : Qc)
    (clusters : list (list pydict)) : Prop :=
  match clusters with
  | [] => True
  | c :: later =>
      (∀ seed, head c = Some seed →
         Forall (λ v, ¬ within_radius max_distance_km seed v)
           (concat later)) ∧
      far_from_earlier_seeds max_distance_km later
  end.

End ClusterSpec.

(** ** Numbers *)

(** A numeric literal. *)
Abbreviation num := Qc_of_Z.

(** [round(x)] of an exact number: the nearest integer, a half going to the
    even neighbour. *)
Definition round_half_even (x : Q) : Z :=
  let f := Qfloor x in
  match (x - inject_Z f ?= 1 # 2)%Q with
  | Lt => f
  | Gt => (f + 1)%Z
  | Eq => if Z.even f then f else (f + 1)%Z
  end.

(** [round(x, ndigits)]: the nearest multiple of [10 ^ -ndigits]. *)
Definition py_round (x : Qc) (ndigits : nat) : Qc :=
  let scale := inject_Z (10 ^ Z.of_nat ndigits) in
  Q2Qc (inject_Z (round_half_even (x * scale)) / scale).

(** ** Travel time *)

(** The table of average speeds in km/h, lines 152-157. *)
Definition speeds : gmap string Qc :=
  list_to_map [("driving"%string, num 50); ("walking"%string, num 5);
               ("transit"%string, num 30); ("cycling"%string, num 15)].

Definition calculate_travel_time (distance_km : Qc) (mode : string) : Qc :=
  let speed := default (num 50) (speeds !! mode) in
  let time_hours := (distance_km / speed)%Qc in
  py_round (time_hours * num 60)%Qc 1.

(** The speed the specification gives for a mode (section 4.4). *)
Definition mode_speed (mode : string) : Qc :=
  if decide (mode = "driving"%string) then num 50
  else if decide (mode = "walking"%string) then num 5
  else if decide (mode = "transit"%string) then num 30
  else if decide (mode = "cycling"%string) then num 15
  else num 50.

(** ** The object store *)

(** Venue dictionaries are objects: a list of venues is a list of references
    and an assignment to a key of one of them is seen through every
    reference to it.  The store maps every address to the dictionary it
    holds. *)
Abbreviation addr := nat.
Abbreviation heap := (addr → pydict).

Definition heap_set (h : heap) (a : addr) (d : pydict) : heap :=
  λ b, if decide (b = a) then d else h b.

(** [obj[k] = v] on the object at address [a]. *)
Definition store_num (h : heap) (a : addr) (k : string) (v : Qc) : heap :=
  heap_set h a (set_num (h a) k v).

(** [l[-1]] *)
Definition py_last {A} (l : list A) : res A :=
  match last l with
  | Some x => Ret x
  | None => Raise IndexError
  end.

(** What [optimize_route] returns: the bare empty list of line 72, or the
    pair of line 98. *)
Inductive opt_result : Type :=
  | EmptyRoute
  | Routed (optimized : list addr) (total_distance : Qc).

(** Two stores whose objects differ at most in their [distance_to_next]
    field. *)
Definition same_but_distance (h h' : heap) : Prop :=
  ∀ a,
    strs (h' a) = strs (h a) ∧
    ∀ k, k ≠ "distance_to_next"%string → nums (h' a) !! k = nums (h a) !! k.

Section Optimizer.

Variable geodesic : coord → coord → res Qc.

(** The [for i in range(len(optimized) - 1)] loop, lines 85-93. *)
Fixpoint annotate_loop (optimized : list addr) (range : list nat)
    (h : heap) (total_distance : Qc) : res (heap * Qc) :=
  match range with
  | [] => Ret (h, total_distance)
  | i :: range' =>
      loc1 ← index optimized i;
      loc2 ← index optimized (i + 1);
      dist ← calculate_distance geodesic
               (get_num (h loc1) "latitude" 0%Qc) (get_num (h loc1) "longitude" 0%Qc)
               (get_num (h loc2) "latitude" 0%Qc) (get_num (h loc2) "longitude" 0%Qc);
      let total_distance := (total_distance + dist)%Qc in
      target ← index optimized i;
      let h := store_num h target "distance_to_next" (py_round dist 2) in
      annotate_loop optimized range' h total_distance
  end.

Definition optimize_route (h : heap) (locations : list addr)
    (start_location : option coord) : res (heap * opt_result) :=
  match locations with
  | [] => Ret (h, EmptyRoute)
  | _ :: _ =>
      let coords :=
        (λ loc, (get_num (h loc) "latitude" 0%Qc,
                 get_num (h loc) "longitude" 0%Qc)) <$> locations in
      route_order ← nearest_neighbor_route geodesic coords start_location;
      optimized ← mapM (index locations) route_order;
      '(h, total_distance) ←
        annotate_loop optimized (seq 0 (length optimized - 1)) h 0%Qc;
      h ← (if decide (0 < length optimized)
           then final ← py_last optimized;
                mret (store_num h final "distance_to_next" 0%Qc)
           else mret h);
      mret (h, Routed optimized total_distance)
  end.

End Optimizer.

Section OptimizerSpec.

Variable geodesic_km : coord → coord → Qc.

(** *** What the specification asks of an optimised route *)

(** The distance of the [i]-th pair of consecutive venues of a route, read
    in the store [h]. *)
Definition leg (h : heap) (optimized : list addr) (i : nat) : Qc :=
  geodesic_km (coords_of (h (optimized !!! i)))
              (coords_of (h (optimized !!! S i))).

(** The distances of the consecutive pairs of a list of venues. *)
Fixpoint leg_distances (venues : list pydict) : list Qc :=
  match venues with
  | v1 :: (v2 :: _) as rest =>
      geodesic_km (coords_of v1) (coords_of v2) :: leg_distances rest
  | _ => []
  end.

(** The sum of a list of numbers. *)
Definition sum_km (l : list Qc) : Qc := foldr Qcplus 0%Qc l.

End OptimizerSpec.

(** ** Route assembly ([app.py]) *)

(** *** The fallback data set read by [get_hotel_coordinates] *)

(** The [location] field of a record: a sequence of numbers (given as a
    list, or as a text that [eval] turns into one), or anything on which
    [eval], [len] or [float] raises. *)
Inductive location_field : Type :=
  | LocSeq (xs : list Qc)
  | LocMalformed.

(** One line of a data file once parsed by [json.loads]. *)
Record hotel_record : Type := HotelRecord {
  rec_hotel_name : option string;
  rec_location : option location_field
}.

(** A line is a record, or [None] when [json.loads] raises on it; a file is
    its lines, or [None] when it cannot be opened. *)
Abbreviation data_line := (option hotel_record).
Abbreviation data_file := (option (list data_line)).

(** The body of the inner [try], lines 198-206. *)
Definition line_coordinates (hotel_name : string) (l : data_line)
  : option coord :=
  match l with
  | None => None
  | Some data =>
      if decide (rec_hotel_name data = Some hotel_name) then
        match rec_location data with
        | Some (LocSeq (x :: y :: _)) => Some (x, y)
        | _ => None
        end
      else None
  end.

Fixpoint scan_lines (hotel_name : string) (lines : list data_line)
  : option coord :=
  match lines with
  | [] => None
  | l :: lines' =>
      match line_coordinates hotel_name l with
      | Some c => Some c
      | None => scan_lines hotel_name lines'
      end
  end.

(** The [for f in files[:5]] loop; a file that cannot be opened raises into
    the outer [except], which ends the search. *)
Fixpoint scan_files (hotel_name : string) (files : list data_file)
  : option coord :=
  match files with
  | [] => None
  | None :: _ => None
  | Some lines :: files' =>
      match scan_lines hotel_name lines with
      | Some c => Some c
      | None => scan_files hotel_name files'
      end
  end.

Definition get_hotel_coordinates (files : list data_file)
    (hotel_name address : string) : option coord :=
  scan_files hotel_name (take 5 files).

(** *** The plan and the locations extracted from it *)

Record plan : Type := Plan {
  hotels : list pydict;
  (** day -> time slot -> attractions, in insertion order of the days *)
  attractions : list (string * gmap string (list pydict));
  (** day -> meal -> restaurants, both in insertion order *)
  restaurants : list (string * list (string * list pydict))
}.

(** A dictionary literal. *)
Definition mk_dict (ns : list (string * Qc)) (ss : list (string * string))
  : pydict :=
  PyDict (list_to_map ns) (list_to_map ss).

(** The truth value of [d.get(k)] for a numeric field: present and not 0. *)
Definition truthy_num (d : pydict) (k : string) : Prop :=
  match nums d !! k with
  | Some q => q ≠ 0%Qc
  | None => False
  end.

#[global] Instance truthy_num_dec d k : Decision (truthy_num d k).
Proof. unfold truthy_num. destruct (nums d !! k); apply _. Defined.

#[global] Instance has_key_dec d k : Decision (has_key d k).
Proof. unfold has_key. apply _. Defined.

(** Lines 98-116, for one hotel: the entries appended to [locations]. *)
Definition hotel_locations (files : list data_file) (hotel : pydict)
  : list pydict :=
  let lat := get_num hotel "latitude" 0%Qc in
  let lng := get_num hotel "longitude" 0%Qc in
  let '(lat, lng) :=
    if decide (lat = 0%Qc ∧ lng = 0%Qc) then
      match get_hotel_coordinates files (get_str hotel "name" "")
              (get_str hotel "address" "") with
      | Some coords => coords
      | None => (lat, lng)
      end
    else (lat, lng) in
  if decide (lat ≠ 0%Qc ∧ lng ≠ 0%Qc) then
    [mk_dict [("lat"%string, lat); ("lng"%string, lng);
              ("price"%string, get_num hotel "price" 0%Qc);
              ("rating"%string, get_num hotel "rating" 0%Qc)]
             [("name"%string, get_str hotel "name" "Hotel");
              ("type"%string, "hotel"%string);
              ("address"%string, get_str hotel "address" "")]]
  else [].

(** Lines 122-133, for one attraction of a day and time slot. *)
Definition attraction_locations (day_key time_slot : string)
    (attraction : pydict) : list pydict :=
  if decide (truthy_num attraction "latitude" ∧ truthy_num attraction "longitude")
  then
    [mk_dict [("lat"%string, get_num attraction "latitude" 0%Qc);
              ("lng"%string, get_num attraction "longitude" 0%Qc);
              ("price"%string, get_num attraction "price" 0%Qc);
              ("rating"%string, get_num attraction "rating" 0%Qc)]
             [("name"%string, get_str attraction "name" "Attraction");
              ("type"%string, "attraction"%string);
              ("day"%string, day_key);
              ("time"%string, time_slot)]]
  else [].

(** Lines 138-149, for one restaurant of a day and meal. *)
Definition restaurant_locations (day_key meal_type : string)
    (restaurant : pydict) : list pydict :=
  if decide (has_key restaurant "latitude" ∧ has_key restaurant "longitude")
  then
    [mk_dict [("lat"%string, get_num restaurant "latitude" 0%Qc);
              ("lng"%string, get_num restaurant "longitude" 0%Qc);
              ("price"%string, get_num restaurant "price" 0%Qc);
              ("rating"%string, get_num restaurant "rating" 0%Qc)]
             [("name"%string, get_str restaurant "name" "Restaurant");
              ("type"%string, "restaurant"%string);
              ("meal"%string, meal_type);
              ("day"%string, day_key)]]
  else [].

Definition extract_locations (files : list data_file) (p : plan)
  : list pydict :=
  (hotels p ≫= hotel_locations files)
  ++ (attractions p ≫= λ '(day_key, day_attractions),
        ["morning"; "evening"]%string ≫= λ time_slot,
          default [] (day_attractions !! time_slot)
          ≫= attraction_locations day_key time_slot)
  ++ (restaurants p ≫= λ '(day_key, day_restaurants),
        day_restaurants ≫= λ '(meal_type, rs),
          rs ≫= restaurant_locations day_key meal_type).

(** *** Routes per day *)

Record day_route : Type := DayRoute {
  route_locations : list pydict;
  total_distance_km : Qc
}.

(** What [calculate_route] returns: the bare empty list of line 158, or the
    routes keyed by day, in insertion order. *)
Inductive route_result : Type :=
  | NoRoutes
  | Routes (routes : list (string * day_route)).

(** The part of the response of [get_recommendations] that carries venues. *)
Record response : Type := Response {
  resp_plan : plan;
  resp_locations : list pydict;
  resp_route : route_result
}.

(** A location entry has its two coordinate fields. *)
Definition has_lat_lng (d : pydict) : Prop :=
  is_Some (nums d !! "lat") ∧ is_Some (nums d !! "lng").

(** [locations_by_day[day].append(loc)], creating the entry at the end when
    the day is new. *)
Fixpoint add_to_day (day : string) (loc : pydict)
    (by_day : list (string * list pydict)) : list (string * list pydict) :=
  match by_day with
  | [] => [(day, [loc])]
  | (d, ls) :: rest =>
      if decide (d = day) then (d, ls ++ [loc]) :: rest
      else (d, ls) :: add_to_day day loc rest
  end.

(** Lines 161-166. *)
Definition group_by_day (locations : list pydict)
  : list (string * list pydict) :=
  foldl (λ by_day loc, add_to_day (get_str loc "day" "Day 1") loc by_day)
        [] locations.

(** [l[k]] for a numeric field. *)
Definition item_num (d : pydict) (k : string) : res Qc :=
  match nums d !! k with
  | Some q => Ret q
  | None => Raise KeyError
  end.

(** [{'latitude': l['lat'], 'longitude': l['lng'], **l}] *)
Definition loc_for_opt (l : pydict) : res pydict :=
  lat ← item_num l "lat";
  lng ← item_num l "lng";
  mret (PyDict (nums l ∪ list_to_map [("latitude"%string, lat);
                                       ("longitude"%string, lng)])
               (strs l)).

(** The dictionary built for the optimiser from a location entry has its
    coordinate in range. *)
Definition valid_location (l : pydict) : Prop :=
  match loc_for_opt l with
  | Ret d => valid_venue d
  | _ => True
  end.

#[global] Instance valid_location_dec l : Decision (valid_location l).
Proof.
  unfold valid_location, valid_venue. destruct (loc_for_opt l); apply _.
Defined.

(** A list of freshly built dictionaries: object [i] of the store is the
    [i]-th of them. *)
Definition fresh_heap (ds : list pydict) : heap :=
  λ a, default (PyDict ∅ ∅) (ds !! a).

Section Assembler.

Variable geodesic : coord → coord → res Qc.

(** Lines 171-184, for one day. *)
Definition route_of_day (day_locations : list pydict) : res day_route :=
  if decide (1 < length day_locations) then
    locs_for_opt ← mapM loc_for_opt day_locations;
    r ← optimize_route geodesic (fresh_heap locs_for_opt)
           (seq 0 (length locs_for_opt)) None;
    match r with
    | (h, Routed optimized total_dist) =>
        mret (DayRoute (h <$> optimized) total_dist)
    | (_, EmptyRoute) => Raise ValueError
    end
  else mret (DayRoute day_locations 0%Qc).

Definition calculate_route (files : list data_file) (p : plan)
  : res route_result :=
  let locations := extract_locations files p in
  if decide (length locations < 2) then mret NoRoutes
  else
    routes ← mapM (λ '(day, day_locations),
                     r ← route_of_day day_locations; mret (day, r))
                  (group_by_day locations);
    mret (Routes routes).

(** Lines 75-83: the plan is returned as it came, next to the locations
    and the routes computed from it. *)
Definition build_response (files : list data_file) (p : plan)
  : res response :=
  route ← calculate_route files p;
  mret (Response p (extract_locations files p) route).

End Assembler.

Section AssemblerSpec.

Variable geodesic_km : coord → coord → Qc.

(** *** What the specification asks of a day's route *)

(** Every venue but the last carries [f] of the distance to its successor,
    the last carries 0, and the total is the sum of the distances of the
    consecutive pairs.  The specification has [f] the identity; the code
    rounds to two decimals. *)
Definition annotated (f : Qc → Qc) (r : day_route) : Prop :=
  (∀ i v w,
     route_locations r !! i = Some v →
     route_locations r !! S i = Some w →
     nums v !! "distance_to_next"
     = Some (f (geodesic_km (coords_of v) (coords_of w)))) ∧
  (∀ z, last (route_locations r) = Some z →
        nums z !! "distance_to_next" = Some 0%Qc) ∧
  total_distance_km r
  = sum_km (leg_distances geodesic_km (route_locations r)).

End AssemblerSpec.

(** A flat-map distance on which the definitions can be run: about 111 km
    per degree along each axis.  It stands in for the geodesic in the
    examples only. *)
Definition grid_km (a b : coord) : Qc :=
  (num 111 * (Qcabs (a.1 - b.1) + Qcabs (a.2 - b.2)))%Qc.

(** The stand-in as a library call that always returns. *)
Definition grid_call (a b : coord) : res Qc := Ret (grid_km a b).

(** The stand-in as a library call that raises on a coordinate out of
    range. *)
Definition strict_call (a b : coord) : res Qc :=
  if decide (valid_coordinate a ∧ valid_coordinate b)
  then Ret (grid_km a b)
  else Raise ValueError.

(** ** Example data *)

(** A decimal literal [n / d]. *)
Definition dec (n : Z) (d : positive) : Qc := Q2Qc (n # d).

(** The three venues of the example of section 8. *)
Definition three_stops : list coord :=
  [(dec 4928 100, dec (-12312) 100);
   (dec 4929 100, dec (-12310) 100);
   (dec 5000 100, dec (-11950) 100)].

Definition venue (name : string) (lat lng : Qc) : pydict :=
  mk_dict [("latitude"%string, lat); ("longitude"%string, lng)]
          [("name"%string, name)].

(** Three venue objects, the far one in the middle of the list. *)
Definition three_venues : list pydict :=
  [venue "Harbour" (dec 4928 100) (dec (-12312) 100);
   venue "Lake" (dec 5000 100) (dec (-11950) 100);
   venue "Market" (dec 4929 100) (dec (-12310) 100)].

(** A venue with a longitude and no latitude. *)
Definition only_longitude : pydict :=
  mk_dict [("longitude"%string, num 5)] [("name"%string, "Pier"%string)].

(** A restaurant whose coordinate is exactly (0,0), and one with a real
    coordinate the same day. *)
Definition cafe : pydict := venue "Cafe" 0%Qc 0%Qc.
Definition bistro : pydict := venue "Bistro" (num 49) (num (-123)).

Definition cafe_plan : plan :=
  Plan [] [] [("Day 1"%string, [("lunch"%string, [cafe]);
                                 ("dinner"%string, [bistro])])].

(** Two restaurants one ten-thousandth of a degree apart. *)
Definition near_plan : plan :=
  Plan [] []
    [("Day 1"%string,
      [("lunch"%string, [venue "North" (dec 490001 10000) (num (-123))]);
       ("dinner"%string, [bistro])])].

(** A hotel without coordinates, an attraction and a restaurant. *)
Definition lodge : pydict :=
  mk_dict [("price"%string, num 120)] [("name"%string, "Lodge"%string)].

Definition lodge_plan : plan :=
  Plan [lodge]
    [("Day 1"%string,
      {["morning"%string := [venue "Museum" (num 49) (num (-123))]]})]
    [("Day 1"%string, [("lunch"%string, [bistro])])].

(** A data file that knows the lodge. *)
Definition lodge_file : data_file :=
  Some [None;
        Some (HotelRecord (Some "Inn"%string) (Some (LocSeq [num 1; num 2])));
        Some (HotelRecord (Some "Lodge"%string) (Some LocMalformed));
        Some (HotelRecord (Some "Lodge"%string)
                (Some (LocSeq [dec 492 10; dec (-1231) 10])))].

(** An attraction at (0,0) that carries the name of the lodge. *)
Definition lodge_garden : pydict := venue "Lodge" 0%Qc 0%Qc.

(** ** Grouping and routing, as a specification *)

(** The day a location entry is grouped under: [loc.get('day', 'Day 1')]. *)
Definition day_of (loc : pydict) : string := get_str loc "day" "Day 1".

(** The elements of a list in the order of their first occurrence. *)
Fixpoint first_occurrences {A} `{EqDecision A} (l : list A) : list A :=
  match l with
  | [] => []
  | x :: l' => x :: filter (λ y, y ≠ x) (first_occurrences l')
  end.

(** The kind of venue a location entry was built from. *)
Definition type_of (loc : pydict) : option string := strs loc !! "type".

(** The venue [v] of a route is the location entry [l] with the fields of
    the optimiser added: [latitude] and [longitude], copies of [lat] and
    [lng], and a [distance_to_next]; every other field is that of [l]. *)
Definition routed_from (l v : pydict) : Prop :=
  strs v = strs l ∧
  nums v !! "latitude" = nums l !! "lat" ∧
  nums v !! "longitude" = nums l !! "lng" ∧
  is_Some (nums v !! "distance_to_next") ∧
  ∀ k, k ∉ ["latitude"; "longitude"; "distance_to_next"]%string →
       nums v !! k = nums l !! k.

(** A location entry as [extract_locations] builds it: none of the fields
    of the optimiser. *)
Definition plain_entry (l : pydict) : Prop :=
  nums l !! "latitude" = None ∧
  nums l !! "longitude" = None ∧
  nums l !! "distance_to_next" = None.

(** A location entry with both coordinates present and different from
    0. *)
Definition nonzero_lat_lng (l : pydict) : Prop :=
  ∃ lat lng,
    nums l !! "lat" = Some lat ∧ nums l !! "lng" = Some lng ∧
    lat ≠ 0%Qc ∧ lng ≠ 0%Qc.

(** What [calculate_route] makes of the locations of one day: with two
    locations or more, the locations in some order that starts with the
    first of them, each with the fields of the optimiser added; with one,
    the list as it is and a total of 0. *)
Definition routes_day (day_locations : list pydict) (r : day_route) : Prop :=
  if decide (1 < length day_locations) then
    ∃ order,
      order ≡ₚ day_locations ∧
      head order = head day_locations ∧
      Forall2 routed_from order (route_locations r)
  else r = DayRoute day_locations 0%Qc.

(** A line of a data file that holds a coordinate for the hotel: a record
    of that name whose location has at least two numbers. *)
Definition line_matches (hotel_name : string) (l : data_line) (c : coord)
  : Prop :=
  ∃ data rest,
    l = Some data ∧
    rec_hotel_name data = Some hotel_name ∧
    rec_location data = Some (LocSeq (c.1 :: c.2 :: rest)).

(** No line of the file holds a coordinate for the hotel. *)
Definition file_silent (hotel_name : string) (f : data_file) : Prop :=
  ∃ lines, f = Some lines ∧
    Forall (λ l, ∀ c, ¬ line_matches hotel_name l c) lines.

(** ** Live routes with a fallback ([traffic_api.py]) *)

(** The answer of the OSRM service once parsed, as far as the code reads
    it: [data['code']] and, of each element of [data['routes']], its
    [distance] in metres and its [duration] in seconds.  A field is [None]
    when reading it as the code does raises. *)
Record osrm_route : Type := OsrmRoute {
  route_distance : option Qc;
  route_duration : option Qc
}.

Record osrm_data : Type := OsrmData {
  osrm_code : option string;
  osrm_routes : option (list osrm_route)
}.

(** The answer of the Google directions service: [data['status']] and, of
    each leg of each route, [distance.value] and [duration.value]. *)
Record google_leg : Type := GoogleLeg {
  leg_distance : option Qc;
  leg_duration : option Qc
}.

Record google_route : Type := GoogleRoute {
  route_legs : option (list google_leg)
}.

Record google_data : Type := GoogleData {
  google_status : option string;
  google_routes : option (list google_route)
}.

(** The fields of a [TrafficAPI] object that [get_route] reads. *)
Record TrafficAPI : Type := MkTrafficAPI {
  google_api_key : option string;
  use_osrm : bool
}.

(** [d[k]] on a parsed answer. *)
Definition item {A} (field : option A) : res A :=
  match field with
  | Some x => Ret x
  | None => Raise KeyError
  end.

(** [try: body / except Exception: handler] *)
Definition try_except {A} (body handler : res A) : res A :=
  match body with
  | Raise _ => handler
  | r => r
  end.

(** The truth value of an optional text: neither [None] nor empty. *)
Definition truthy_str (s : option string) : bool :=
  match s with
  | Some s => bool_decide (s ≠ ""%string)
  | None => false
  end.

(** The outcome of [requests.get(...)], [raise_for_status()] and [json()]:
    the parsed answer, or [None] when one of the three raises.  The
    exceptions of [requests] have classes of their own; all are instances
    of [Exception], which is all a handler of this module looks at. *)
Definition service_answer {A} (answer : option A) : res A :=
  match answer with
  | Some data => Ret data
  | None => Raise ValueError
  end.

Section Traffic.

Variable geodesic : coord → coord → res Qc.

(** The OSRM service, by profile, origin and destination. *)
Variable osrm_get : string → coord → coord → option osrm_data.

(** The Google service, by mode, key, origin and destination. *)
Variable google_get : string → string → coord → coord → option google_data.

(** Lines 119-133. *)
Definition _fallback_route (origin destination : coord) (mode : string)
  : res pydict :=
  distance_km ← calculate_distance geodesic origin.1 origin.2
                  destination.1 destination.2;
  let duration_minutes := calculate_travel_time distance_km mode in
  mret (mk_dict [("distance_km"%string, py_round distance_km 2);
                 ("duration_minutes"%string, duration_minutes)]
                [("status"%string, "estimated"%string);
                 ("service"%string, "fallback"%string);
                 ("note"%string, "Using estimated distance and time"%string)]).

(** Lines 47-83. *)
Definition _get_osrm_route (origin destination : coord) (mode : string)
  : res pydict :=
  try_except
    (let profile :=
       if decide (mode = "driving"%string) then "driving"%string
       else "walking"%string in
     data ← service_answer (osrm_get profile origin destination);
     code ← item (osrm_code data);
     if decide (code = "Ok"%string) then
       routes ← item (osrm_routes data);
       if decide (0 < length routes) then
         route ← index routes 0;
         distance_m ← item (route_distance route);
         duration_s ← item (route_duration route);
         mret (mk_dict [("distance_km"%string,
                         py_round (distance_m / num 1000)%Qc 2);
                        ("duration_minutes"%string,
                         py_round (duration_s / num 60)%Qc 1);
                        ("duration_seconds"%string, duration_s)]
                       [("status"%string, "success"%string);
                        ("service"%string, "OSRM"%string)])
       else _fallback_route origin destination mode
     else _fallback_route origin destination mode)
    (_fallback_route origin destination mode).

(** Lines 85-117. *)
Definition _get_google_route (key : string) (origin destination : coord)
    (mode : string) : res pydict :=
  try_except
    (data ← service_answer (google_get mode key origin destination);
     status ← item (google_status data);
     if decide (status = "OK"%string) then
       routes ← item (google_routes data);
       if decide (0 < length routes) then
         route0 ← index routes 0;
         legs ← item (route_legs route0);
         route ← index legs 0;
         distance_m ← item (leg_distance route);
         duration_s ← item (leg_duration route);
         mret (mk_dict [("distance_km"%string,
                         py_round (distance_m / num 1000)%Qc 2);
                        ("duration_minutes"%string,
                         py_round (duration_s / num 60)%Qc 1);
                        ("duration_seconds"%string, duration_s)]
                       [("status"%string, "success"%string);
                        ("service"%string, "Google Maps"%string)])
       else _fallback_route origin destination mode
     else _fallback_route origin destination mode)
    (_fallback_route origin destination mode).

(** Lines 29-45. *)
Definition get_route (self : TrafficAPI) (origin destination : coord)
    (mode : string) : res pydict :=
  if truthy_str (google_api_key self) && negb (use_osrm self) then
    _get_google_route (default ""%string (google_api_key self))
      origin destination mode
  else _get_osrm_route origin destination mode.

End Traffic.

(** A route record that [_fallback_route] builds from the distance
    [distance_km]: the distance is shown rounded to two decimals, the
    duration is that of the unrounded distance. *)
Definition estimate (distance_km : Qc) (mode : string) (r : pydict) : Prop :=
  strs r !! "status" = Some "estimated"%string ∧
  strs r !! "service" = Some "fallback"%string ∧
  nums r !! "distance_km" = Some (py_round distance_km 2) ∧
  nums r !! "duration_minutes"
  = Some (calculate_travel_time distance_km mode) ∧
  nums r !! "duration_seconds" = None.

(** A route record built from the answer of a routing service. *)
Definition live_answer (r : pydict) : Prop :=
  strs r !! "status" = Some "success"%string ∧
  (strs r !! "service" = Some "OSRM"%string
   ∨ strs r !! "service" = Some "Google Maps"%string) ∧
  is_Some (nums r !! "distance_km") ∧
  is_Some (nums r !! "duration_minutes") ∧
  is_Some (nums r !! "duration_seconds").

(** ** The per-day routes of the planner ([travel_planner.py]) *)

(** An entry of the dictionary [_optimize_routes] returns. *)
Record route_summary : Type := RouteSummary {
  summary_route : list addr;
  summary_total_distance_km : Qc;
  estimated_time_minutes : Qc
}.

Section Planner.

Variable geodesic : coord → coord → res Qc.

(** The body of the loop of [_optimize_routes], lines 406-420, for one
    day: [locations] is the empty list of line 407, which nothing fills
    before the test of line 413. *)
Definition optimize_day (day : Z)
    (state : heap * gmap string route_summary)
  : res (heap * gmap string route_summary) :=
  let day_key := ("Day " +:+ pretty day)%string in
  let locations : list addr := [] in
  match locations with
  | [] => mret state
  | _ :: _ =>
      r ← optimize_route geodesic state.1 locations None;
      match r with
      | (h, Routed optimized_route total_distance) =>
          mret (h, <[day_key := RouteSummary optimized_route total_distance
                                  (calculate_travel_time total_distance
                                     "driving")]> state.2)
      | (_, EmptyRoute) => Raise ValueError
      end
  end.

Fixpoint optimize_days (days : list Z)
    (state : heap * gmap string route_summary)
  : res (heap * gmap string route_summary) :=
  match days with
  | [] => mret state
  | day :: days' => state ← optimize_day day state; optimize_days days' state
  end.

(** [for day in range(1, plan['days'] + 1)] over an empty dictionary. *)
Definition _optimize_routes (h : heap) (plan_days : Z)
  : res (heap * gmap string route_summary) :=
  optimize_days (seqZ 1 plan_days) (h, ∅).

End Planner.

(** ** Stand-ins for the routing services *)

(** A service that cannot be reached. *)
Definition osrm_down (profile : string) (origin destination : coord)
  : option osrm_data := None.

Definition google_down (mode key : string) (origin destination : coord)
  : option google_data := None.

(** A service that knows a way on foot only: 1200 m in 900 s. *)
Definition osrm_on_foot (profile : string) (origin destination : coord)
  : option osrm_data :=
  if decide (profile = "walking"%string)
  then Some (OsrmData (Some "Ok"%string)
               (Some [OsrmRoute (Some (num 1200)) (Some (num 900))]))
  else Some (OsrmData (Some "NoRoute"%string) (Some [])).

(** ** More example plans *)

(** Two restaurants on two days, the second with a latitude out of
    range. *)
Definition two_day_plan : plan :=
  Plan [] []
    [("Day 1"%string, [("lunch"%string, [bistro])]);
     ("Day 2"%string,
      [("lunch"%string, [venue "Summit" (num 500) (num (-123))])])].
(* ================================================================== *)
(** * Part II: properties *)
(* ================================================================== *)

Lemma index_lookup {A} (l : list A) i x : l !! i = Some x → index l i = Ret x.
Proof. unfold index. by intros ->. Qed.

Lemma index_lt {A} (l : list A) i : i < length l → ∃ x, l !! i = Some x ∧ index l i = Ret x.
Proof.
  intros Hi. destruct (lookup_lt_is_Some_2 l i Hi) as [x Hx].
  exists x. split; [done | by apply index_lookup].
Qed.

(** ** [min] returns the first element of minimal key *)

Lemma min_scan_first_min {A} (key : A → res Qc) (fkey : A → Qc) rest :
  ∀ best kbest,
    (∀ x, x ∈ rest → key x = Ret (fkey x)) →
    kbest = fkey best →
    ∃ m l1 l2,
      min_scan key best kbest rest = Ret m ∧
      best :: rest = l1 ++ m :: l2 ∧
      (∀ x, x ∈ l1 → (fkey m < fkey x)%Qc) ∧
      (∀ x, x ∈ l2 → (fkey m ≤ fkey x)%Qc).
Proof.
  induction rest as [|x rest IH]; intros best kbest Hkey ->.
  - exists best, [], []. repeat split; intros y Hy; by apply elem_of_nil in Hy.
  - cbn [min_scan]. rewrite (Hkey x) by left. cbn.
    destruct (decide (fkey x < fkey best)%Qc) as [Hlt|Hge].
    + destruct (IH x (fkey x)) as (m & l1 & l2 & Hrun & Hsplit & Hl1 & Hl2);
        [intros y Hy; apply Hkey; by right | done |].
      assert (fkey m ≤ fkey x)%Qc as Hmx.
      { assert (x ∈ l1 ++ m :: l2) as Hx by (rewrite <- Hsplit; left).
        apply elem_of_app in Hx as [Hx|Hx].
        - apply Qclt_le_weak. by apply Hl1.
        - apply elem_of_cons in Hx as [->|Hx]; [apply Qcle_refl | by apply Hl2]. }
      exists m, (best :: l1), l2. repeat split.
      * done.
      * cbn. by rewrite Hsplit.
      * intros y Hy. apply elem_of_cons in Hy as [->|Hy]; [|by apply Hl1].
        by eapply Qcle_lt_trans.
      * done.
    + apply Qcnot_lt_le in Hge.
      destruct (IH best (fkey best)) as (m & l1 & l2 & Hrun & Hsplit & Hl1 & Hl2);
        [intros y Hy; apply Hkey; by right | done |].
      destruct l1 as [|b l1]; cbn in Hsplit; injection Hsplit as -> ->.
      * exists m, [], (x :: l2). repeat split; [done | |].
        -- intros y Hy. by apply elem_of_nil in Hy.
        -- intros y Hy. apply elem_of_cons in Hy as [->|Hy]; [done | by apply Hl2].
      * exists m, (b :: x :: l1), l2. repeat split; [done | | done].
        intros y Hy. apply elem_of_cons in Hy as [->|Hy]; [apply Hl1; left |].
        apply elem_of_cons in Hy as [->|Hy]; [| apply Hl1; by right].
        eapply Qclt_le_trans; [apply Hl1; left | done].
Qed.

Lemma py_min_first_min {A} (key : A → res Qc) (fkey : A → Qc) (l : list A) :
  l ≠ [] →
  (∀ x, x ∈ l → key x = Ret (fkey x)) →
  ∃ m l1 l2,
    py_min key l = Ret m ∧
    l = l1 ++ m :: l2 ∧
    (∀ x, x ∈ l1 → (fkey m < fkey x)%Qc) ∧
    (∀ x, x ∈ l2 → (fkey m ≤ fkey x)%Qc).
Proof.
  intros Hne Hkey. destruct l as [|x rest]; [done|].
  cbn [py_min]. rewrite (Hkey x) by left. cbn.
  apply min_scan_first_min; [|done].
  intros y Hy. apply Hkey. by right.
Qed.

(** ** Increasing lists of indices *)

Lemma filter_strongly_sorted {A} (R : relation A) (P : A → Prop)
    `{!∀ x, Decision (P x)} (l : list A) :
  StronglySorted R l → StronglySorted R (filter P l).
Proof.
  induction 1 as [|x l Hs IH Hall]; [constructor|].
  rewrite filter_cons. destruct (decide (P x)); [|done].
  constructor; [done|].
  apply Forall_forall. intros y Hy. apply list_elem_of_filter in Hy as [_ Hy].
  by eapply Forall_forall in Hall.
Qed.

Lemma strongly_sorted_lt_NoDup (l : list nat) : StronglySorted lt l → NoDup l.
Proof.
  induction 1 as [|x l Hs IH Hall]; constructor; [|done].
  intros Hx. eapply Forall_forall in Hall; [|done]. lia.
Qed.

Lemma seq_strongly_sorted (j n : nat) : StronglySorted lt (seq j n).
Proof.
  revert j. induction n as [|n IH]; intros j; cbn; constructor; [apply IH|].
  apply Forall_forall. intros y Hy. apply elem_of_seq in Hy. lia.
Qed.

Lemma filter_ne_absent (l : list nat) (k : nat) :
  k ∉ l → filter (λ y, y ≠ k) l = l.
Proof.
  induction l as [|x l IH]; intros Hk; [done|].
  apply not_elem_of_cons in Hk as [Hne Hk].
  rewrite filter_cons. destruct (decide (x ≠ k)); [|done].
  by rewrite IH.
Qed.

Lemma NoDup_remove_perm (l : list nat) (k : nat) :
  NoDup l → k ∈ l → l ≡ₚ k :: filter (λ y, y ≠ k) l.
Proof.
  induction 1 as [|x l Hx Hnd IH]; intros Hk; [by apply elem_of_nil in Hk|].
  rewrite filter_cons. apply elem_of_cons in Hk as [->|Hk].
  - destruct (decide (x ≠ x)) as [?|_]; [done|].
    by rewrite filter_ne_absent.
  - destruct (decide (x ≠ k)) as [_|Heq]; [|apply dec_stable in Heq; by subst].
    rewrite (IH Hk) at 1. apply Permutation_swap.
Qed.

(** ** The nearest-neighbour walk *)

Section RouterProps.

Variable geodesic : coord → coord → res Qc.
Hypothesis Hlib : returns_on_valid geodesic.
Abbreviation km := (km_of geodesic).

Lemma geodesic_on_valid (a b : coord) :
  valid_coordinate a → valid_coordinate b → geodesic a b = Ret (km a b).
Proof.
  intros Ha Hb. destruct (Hlib a b Ha Hb) as [d Hd].
  unfold km_of. by rewrite Hd.
Qed.

Lemma coord_at_lookup (locations : list coord) (i : nat) (c : coord) :
  locations !! i = Some c → coord_at locations i = c.
Proof. unfold coord_at. by intros ->. Qed.

Lemma step_key_in_range (locations : list coord) (current i : nat) :
  Forall valid_coordinate locations →
  current < length locations → i < length locations →
  step_key geodesic locations current i
  = Ret (km (coord_at locations current) (coord_at locations i)).
Proof.
  intros Hvalid Hc Hi. unfold step_key.
  destruct (index_lt locations current Hc) as (c & Hc1 & ->).
  destruct (index_lt locations i Hi) as (q & Hq1 & ->).
  cbn. unfold calculate_distance.
  rewrite (coord_at_lookup _ _ _ Hc1), (coord_at_lookup _ _ _ Hq1).
  rewrite <- !surjective_pairing.
  apply geodesic_on_valid; eapply Forall_lookup_1; done.
Qed.

Lemma start_key_in_range (locations : list coord) (s : coord) (i : nat) :
  Forall valid_coordinate locations →
  valid_coordinate s →
  i < length locations →
  start_key geodesic locations s i
  = Ret (km s (coord_at locations i)).
Proof.
  intros Hvalid Hs Hi. unfold start_key.
  destruct (index_lt locations i Hi) as (q & Hq1 & ->).
  cbn. unfold calculate_distance. rewrite (coord_at_lookup _ _ _ Hq1).
  rewrite <- !surjective_pairing.
  apply geodesic_on_valid; [done | by eapply Forall_lookup_1].
Qed.

(** On an increasing list of candidates the first minimum is the nearest
    candidate of lowest index. *)
Lemma py_min_nearest (locations : list coord) (p : coord)
    (key : nat → res Qc) (cands : list nat) :
  cands ≠ [] →
  StronglySorted lt cands →
  (∀ i, i ∈ cands → key i = Ret (km p (coord_at locations i))) →
  ∃ k, py_min key cands = Ret k ∧ nearest_to km locations p cands k.
Proof.
  intros Hne Hsort Hkey.
  destruct (py_min_first_min key (λ i, km p (coord_at locations i))
              cands Hne Hkey) as (k & l1 & l2 & Hrun & -> & Hl1 & Hl2).
  exists k. split; [done|]. split.
  - apply elem_of_app. right. left.
  - intros j Hj. apply elem_of_app in Hj as [Hj|Hj].
    + specialize (Hl1 j Hj). split; [by apply Qclt_le_weak|].
      intros Heq. rewrite Heq in Hl1.
      apply Qclt_not_le in Hl1. destruct Hl1. apply Qcle_refl.
    + apply elem_of_cons in Hj as [->|Hj]; [split; [apply Qcle_refl | lia]|].
      split; [by apply Hl2|]. intros _.
      apply StronglySorted_app_1_r, StronglySorted_inv in Hsort as [_ Hall].
      eapply Forall_forall in Hall; [|done]. lia.
Qed.

Lemma nearest_to_ext (locations : list coord) (p : coord)
    (c1 c2 : list nat) (k : nat) :
  (∀ x, x ∈ c1 ↔ x ∈ c2) →
  nearest_to km locations p c1 k →
  nearest_to km locations p c2 k.
Proof.
  intros Heq [Hin Hmin]. split; [by apply Heq|].
  intros j Hj. apply Hmin. by apply Heq.
Qed.

Lemma visit_loop_greedy (locations : list coord) :
  Forall valid_coordinate locations →
  ∀ fuel unvisited current route,
    StronglySorted lt unvisited →
    (∀ i, i ∈ unvisited → i < length locations) →
    current < length locations →
    length unvisited ≤ fuel →
    ∃ tail,
      visit_loop geodesic fuel locations unvisited current route
      = Ret (route ++ tail) ∧
      tail ≡ₚ unvisited ∧
      greedy_walk km locations current unvisited tail.
Proof.
  intros Hvalid.
  induction fuel as [|fuel IH]; intros unvisited current route Hsort Hlt Hcur Hfuel.
  - destruct unvisited as [|u unvisited]; [|cbn in Hfuel; lia].
    exists []. cbn. by rewrite app_nil_r.
  - destruct unvisited as [|u unvisited].
    { exists []. cbn. by rewrite app_nil_r. }
    set (cands := u :: unvisited) in *.
    destruct (py_min_nearest locations (coord_at locations current)
                (step_key geodesic locations current) cands)
      as (k & Hmin & Hnear); [done | done | |].
    { intros i Hi. apply step_key_in_range; [done | done | by apply Hlt]. }
    pose proof Hnear as [Hk _].
    assert (visit_loop geodesic (S fuel) locations cands current route
            = visit_loop geodesic fuel locations
                (filter (λ y, y ≠ k) cands) k (route ++ [k])) as ->.
    { subst cands. cbn [visit_loop]. rewrite Hmin. cbn.
      unfold set_remove. by rewrite decide_True. }
    destruct (IH (filter (λ y, y ≠ k) cands) k (route ++ [k]))
      as (tail & Hrun & Hperm & Hwalk).
    + by apply filter_strongly_sorted.
    + intros i Hi. apply list_elem_of_filter in Hi as [_ Hi]. by apply Hlt.
    + by apply Hlt.
    + pose proof (length_filter_lt (λ y, y ≠ k) cands k Hk) as Hlen.
      cbn in Hfuel, Hlen. cbn. cbn in Hlen. lia.
    + exists (k :: tail). split; [|split].
      * rewrite Hrun. by rewrite <- app_assoc.
      * rewrite Hperm. symmetry. apply NoDup_remove_perm; [|done].
        by apply strongly_sorted_lt_NoDup.
      * cbn. done.
Qed.

(** Position by position: the element after [current] is nearest to it
    among the indices the walk has not used yet. *)
Lemma greedy_walk_positions (locations : list coord) :
  ∀ tail current unvisited k cur nxt,
    greedy_walk km locations current unvisited tail →
    (current :: tail) !! k = Some cur →
    tail !! k = Some nxt →
    nearest_to km locations (coord_at locations cur)
      (filter (λ y, y ∉ take k tail) unvisited) nxt.
Proof.
  induction tail as [|t tail IH]; intros current unvisited k cur nxt Hwalk Hc Hn;
    [done|].
  destruct Hwalk as [Hnear Hwalk]. destruct k as [|k].
  - cbn in Hc, Hn. simplify_eq.
    eapply nearest_to_ext; [|done].
    intros x. rewrite list_elem_of_filter. cbn.
    split; [intros ?; split; [apply not_elem_of_nil | done] | by intros [_ ?]].
  - cbn in Hc, Hn. specialize (IH _ _ _ _ _ Hwalk Hc Hn).
    eapply nearest_to_ext; [|done].
    intros x. rewrite !list_elem_of_filter. cbn. rewrite not_elem_of_cons.
    tauto.
Qed.

Lemma nearest_neighbor_route_run (locations : list coord) (start : option coord) :
  Forall valid_coordinate locations →
  from_option valid_coordinate True start →
  2 ≤ length locations →
  ∃ first tail,
    nearest_neighbor_route geodesic locations start = Ret (first :: tail) ∧
    first < length locations ∧
    first_choice km locations start first ∧
    tail ≡ₚ filter (λ y, y ≠ first) (seq 0 (length locations)) ∧
    greedy_walk km locations first
      (filter (λ y, y ≠ first) (seq 0 (length locations))) tail.
Proof.
  intros Hvalid Hstart Hlen.
  destruct locations as [|c1 [|c2 rest]]; [cbn in Hlen; lia ..|].
  set (locations := c1 :: c2 :: rest) in *.
  set (n := length locations) in *.
  assert (∃ first,
    match start with
    | Some s => py_min (start_key geodesic locations s) (seq 0 n)
    | None => Ret 0
    end = Ret first ∧ first < n ∧ first_choice km locations start first)
    as (first & Hfirst & Hlt & Hchoice).
  { destruct start as [s|].
    - destruct (py_min_nearest locations s
                  (start_key geodesic locations s) (seq 0 n))
        as (k & Hmin & Hnear).
      + subst n. done.
      + apply seq_strongly_sorted.
      + intros i Hi. apply elem_of_seq in Hi.
        apply start_key_in_range; [done | done | lia].
      + exists k. split; [done|]. split; [|done].
        destruct Hnear as [Hk _]. apply elem_of_seq in Hk. lia.
    - exists 0. split; [done|]. split; [lia | done]. }
  assert (first ∈ seq 0 n) as Hin by (apply elem_of_seq; lia).
  destruct (visit_loop_greedy locations Hvalid n
              (filter (λ y, y ≠ first) (seq 0 n)) first [first])
    as (tail & Hrun & Hperm & Hwalk).
  - apply filter_strongly_sorted, seq_strongly_sorted.
  - intros i Hi. apply list_elem_of_filter in Hi as [_ Hi].
    apply elem_of_seq in Hi. lia.
  - done.
  - pose proof (length_filter (λ y, y ≠ first) (seq 0 n)) as Hl.
    rewrite length_seq in Hl. done.
  - exists first, tail. split; [|done].
    change (nearest_neighbor_route geodesic locations start) with
      (match start with
       | Some s => py_min (start_key geodesic locations s) (seq 0 n)
       | None => Ret 0
       end ≫= λ current,
         set_remove current (seq 0 n) ≫= λ unvisited,
           visit_loop geodesic n locations unvisited current [current]).
    rewrite Hfirst. cbn [mbind res_bind]. unfold set_remove.
    rewrite decide_True by done. cbn [mbind res_bind]. by rewrite Hrun.
Qed.

Lemma nearest_neighbor_route_returns
    (locations : list coord) (start : option coord) :
  Forall valid_coordinate locations →
  from_option valid_coordinate True start →
  ∃ route,
    nearest_neighbor_route geodesic locations start = Ret route ∧
    route ≡ₚ seq 0 (length locations).
Proof.
  intros Hvalid Hstart.
  destruct (decide (2 ≤ length locations)) as [Hlen|Hlen].
  - destruct (nearest_neighbor_route_run locations start Hvalid Hstart Hlen)
      as (first & tail & Hrun & Hlt & _ & Hperm & _).
    exists (first :: tail). split; [done|].
    rewrite Hperm. symmetry. apply NoDup_remove_perm; [apply NoDup_seq|].
    apply elem_of_seq. lia.
  - destruct locations as [|c1 [|c2 rest]]; [by exists [] | by exists [0] |].
    cbn in Hlen. lia.
Qed.

(** C1. For every list of coordinate pairs (each in range, so that the
    library returns their distances) [nearest_neighbor_route] returns a
    permutation of the indices [0 .. n-1] of the list: every index once,
    none missing, as many as the list has elements; the route of the empty
    list is empty and the route of a one-element list is [[0]]. *)
Theorem nearest_neighbor_route_permutation
    (locations : list coord) (start : option coord) :
  Forall valid_coordinate locations →
  from_option valid_coordinate True start →
  (∃ route,
     nearest_neighbor_route geodesic locations start = Ret route ∧
     route ≡ₚ seq 0 (length locations) ∧
     NoDup route ∧
     length route = length locations ∧
     ∀ i, i ∈ route ↔ i < length locations) ∧
  nearest_neighbor_route geodesic [] start = Ret [] ∧
  ∀ c, nearest_neighbor_route geodesic [c] start = Ret [0].
Proof.
  intros Hvalid Hstart. split; [|done].
  destruct (nearest_neighbor_route_returns locations start Hvalid Hstart)
    as (route & Hrun & Hperm).
  exists route. split; [done|]. split; [done|]. split; [|split].
  - rewrite Hperm. apply NoDup_seq.
  - by rewrite Hperm, length_seq.
  - intros i. rewrite Hperm, elem_of_seq. lia.
Qed.

(** C2. [nearest_neighbor_route] is the greedy walk of the specification:
    the first element is the index nearest to [start] when a start is given
    and index 0 otherwise; each later element is, among the indices not
    yet in the route, the one nearest to the element before it, the lowest
    index winning a tie; the walk stops when every index is in the route. *)
Theorem nearest_neighbor_route_greedy
    (c : coord) (rest : list coord) (start : option coord) :
  let locations := c :: rest in
  Forall valid_coordinate locations →
  from_option valid_coordinate True start →
  ∃ route,
    nearest_neighbor_route geodesic locations start = Ret route ∧
    length route = length locations ∧
    (∃ first, route !! 0 = Some first ∧ first_choice km locations start first) ∧
    ∀ k cur nxt,
      route !! k = Some cur →
      route !! S k = Some nxt →
      nearest_to km locations (coord_at locations cur)
        (filter (λ y, y ∉ take (S k) route) (seq 0 (length locations))) nxt.
Proof.
  intros locations Hvalid Hstart.
  destruct (decide (2 ≤ length locations)) as [Hlen|Hlen].
  - destruct (nearest_neighbor_route_run locations start Hvalid Hstart Hlen)
      as (first & tail & Hrun & Hlt & Hchoice & Hperm & Hwalk).
    exists (first :: tail). split; [done|]. split; [|split].
    + assert (first :: tail ≡ₚ seq 0 (length locations)) as Hp.
      { rewrite Hperm. symmetry.
        apply NoDup_remove_perm; [apply NoDup_seq | apply elem_of_seq; lia]. }
      rewrite Hp. apply length_seq.
    + by exists first.
    + intros k cur nxt Hcur Hnxt. cbn in Hnxt.
      pose proof (greedy_walk_positions locations tail first _
                    k cur nxt Hwalk Hcur Hnxt) as Hnear.
      eapply nearest_to_ext; [|done].
      intros x. rewrite !list_elem_of_filter. cbn. rewrite not_elem_of_cons.
      tauto.
  - destruct rest as [|c2 rest]; [|cbn in Hlen; lia].
    exists [0]. split; [done|]. split; [done|]. split.
    + exists 0. split; [done|]. destruct start as [s|]; [|done].
      split; [by left|]. intros j Hj. apply list_elem_of_singleton in Hj as ->.
      split; [apply Qcle_refl | done].
    + intros k cur nxt _ Hnxt. done.
Qed.

End RouterProps.

(** ** Proximity clustering *)

Section ClustererProps.

Variable geodesic : coord → coord → res Qc.
Hypothesis Hlib : returns_on_valid geodesic.
Abbreviation km := (km_of geodesic).

Lemma py_pop_lookup {A} (l : list A) i x :
  l !! i = Some x → py_pop l i = Ret (x, delete i l).
Proof. unfold py_pop. by intros ->. Qed.

Lemma drop_delete_same {A} (l : list A) i :
  drop i (delete i l) = drop (S i) l.
Proof.
  revert i. induction l as [|x l IH]; intros [|i]; cbn; auto.
Qed.

Lemma take_delete_same {A} (l : list A) i :
  take i (delete i l) = take i l.
Proof.
  revert i. induction l as [|x l IH]; intros [|i]; cbn; rewrite ?IH; done.
Qed.

Lemma scan_loop_filter (center : coord) (max_distance_km : Qc) :
  let P := λ v : pydict, (km center (coords_of v) ≤ max_distance_km)%Qc in
  valid_coordinate center →
  ∀ fuel unassigned cluster i,
    Forall valid_venue unassigned →
    i ≤ length unassigned →
    length unassigned - i ≤ fuel →
    scan_loop geodesic fuel center max_distance_km unassigned cluster i
    = Ret (cluster ++ filter P (drop i unassigned),
           take i unassigned ++ filter (λ v, ¬ P v) (drop i unassigned)).
Proof.
  intros P Hcenter.
  induction fuel as [|fuel IH]; intros unassigned cluster i Hvalid Hi Hfuel.
  - assert (i = length unassigned) as -> by lia.
    cbn. rewrite decide_False by lia.
    by rewrite drop_all, firstn_all, !app_nil_r.
  - cbn [scan_loop]. destruct (decide (i < length unassigned)) as [Hlt|Hge].
    + destruct (index_lt unassigned i Hlt) as (loc & Hloc & ->).
      cbn [mbind res_bind].
      rewrite (drop_S _ _ _ Hloc), !filter_cons.
      assert (calculate_distance geodesic center.1 center.2
                (get_num loc "latitude" 0%Qc) (get_num loc "longitude" 0%Qc)
              = Ret (km center (coords_of loc))) as ->.
      { unfold calculate_distance. rewrite <- surjective_pairing.
        apply (geodesic_on_valid geodesic Hlib); [done|].
        by eapply (Forall_lookup_1 valid_venue). }
      cbn [mbind res_bind].
      destruct (decide (km center (coords_of loc) ≤ max_distance_km)%Qc)
        as [Hin|Hout].
      * rewrite (py_pop_lookup _ _ _ Hloc). cbn [mbind res_bind].
        rewrite IH.
        -- rewrite drop_delete_same, take_delete_same.
           rewrite (decide_True (P:=P loc)) by done.
           rewrite (decide_False (P:=¬ P loc)) by (intros HP; by apply HP).
           by rewrite <- app_assoc.
        -- by apply Forall_delete.
        -- rewrite length_delete by eauto. lia.
        -- rewrite length_delete by eauto. lia.
      * rewrite IH by (done || lia).
        rewrite (decide_False (P:=P loc)) by done.
        rewrite (decide_True (P:=¬ P loc)) by done.
        rewrite (take_S_r _ _ _ Hloc). by rewrite <- app_assoc.
    + assert (i = length unassigned) as -> by lia.
      by rewrite drop_all, firstn_all, !app_nil_r.
Qed.

Lemma cluster_loop_partition (max_distance_km : Qc) :
  ∀ fuel unassigned clusters,
    Forall valid_venue unassigned →
    length unassigned ≤ fuel →
    ∃ new,
      cluster_loop geodesic fuel max_distance_km unassigned clusters
      = Ret (clusters ++ new) ∧
      concat new ≡ₚ unassigned ∧
      Forall (seed_ball km max_distance_km) new ∧
      far_from_earlier_seeds km max_distance_km new.
Proof.
  induction fuel as [|fuel IH]; intros unassigned clusters Hvalid Hfuel.
  - destruct unassigned; [|cbn in Hfuel; lia].
    exists []. cbn. by rewrite app_nil_r.
  - destruct unassigned as [|seed rest].
    { exists []. cbn. by rewrite app_nil_r. }
    apply Forall_cons in Hvalid as [Hseed Hrest].
    cbn [cluster_loop py_pop lookup list_lookup mbind res_bind index delete
         list_delete].
    rewrite scan_loop_filter by (done || cbn; lia).
    cbn [mbind res_bind app]. rewrite take_0, drop_0. cbn [app].
    set (P := λ v : pydict,
           (km (get_num seed "latitude" 0%Qc,
                         get_num seed "longitude" 0%Qc) (coords_of v)
            ≤ max_distance_km)%Qc).
    destruct (IH (filter (λ v, ¬ P v) rest)
                 (clusters ++ [seed :: filter P rest]))
      as (new & Hrun & Hperm & Hball & Hfar).
    { apply Forall_forall. intros v Hv.
      apply list_elem_of_filter in Hv as [_ Hv].
      by eapply Forall_forall in Hrest. }
    { pose proof (length_filter (λ v, ¬ P v) rest). cbn in Hfuel. lia. }
    exists ((seed :: filter P rest) :: new). split; [|split; [|split]].
    + rewrite <- app_assoc in Hrun. exact Hrun.
    + cbn. f_equiv. rewrite Hperm. apply filter_app_complement.
    + constructor; [|done]. exists seed, (filter P rest). split; [done|].
      apply Forall_forall. intros v Hv.
      by apply list_elem_of_filter in Hv as [Hv _].
    + split; [|done]. intros s Hs. cbn in Hs. simplify_eq.
      apply Forall_forall. intros v Hv. rewrite Hperm in Hv.
      by apply list_elem_of_filter in Hv as [Hv _].
Qed.


End ClustererProps.

(** ** Rounding and travel time *)

Lemma round_half_even_nearest (y : Q) :
  (inject_Z (round_half_even y) - (1 # 2) <= y
   ∧ y <= inject_Z (round_half_even y) + (1 # 2))%Q.
Proof.
  unfold round_half_even.
  pose proof (Qfloor_le y) as Hlo. pose proof (Qlt_floor y) as Hhi.
  rewrite inject_Z_plus in Hhi. change (inject_Z 1) with 1%Q in Hhi.
  destruct (Qcompare_spec (y - inject_Z (Qfloor y)) (1 # 2)) as [He|Hl|Hg].
  - destruct (Z.even (Qfloor y));
      rewrite ?inject_Z_plus; change (inject_Z 1) with 1%Q; split; lra.
  - split; lra.
  - rewrite inject_Z_plus. change (inject_Z 1) with 1%Q. split; lra.
Qed.


Lemma speeds_lookup (mode : string) :
  default (num 50) (speeds !! mode) = mode_speed mode.
Proof.
  unfold speeds, mode_speed. cbn [list_to_map foldr uncurry].
  repeat case_decide; subst;
    repeat first [ rewrite lookup_insert_eq | rewrite lookup_insert_ne by done ];
    try done.
Qed.


(** ** The store and the annotated route *)

Lemma same_but_distance_refl (h : heap) : same_but_distance h h.
Proof. by intros a. Qed.

Lemma same_but_distance_trans (h1 h2 h3 : heap) :
  same_but_distance h1 h2 → same_but_distance h2 h3 → same_but_distance h1 h3.
Proof.
  intros H12 H23 a. destruct (H12 a) as [Hs Hn], (H23 a) as [Hs' Hn'].
  split; [congruence|]. intros k Hk. rewrite Hn', Hn; done.
Qed.

Lemma store_distance_same (h : heap) (a : addr) (v : Qc) :
  same_but_distance h (store_num h a "distance_to_next" v).
Proof.
  intros b. unfold store_num, heap_set. destruct (decide (b = a)) as [->|]; [|done].
  split; [done|]. intros k Hk. cbn. by rewrite lookup_insert_ne.
Qed.

Lemma same_but_distance_coords (h h' : heap) (a : addr) :
  same_but_distance h h' → coords_of (h' a) = coords_of (h a).
Proof.
  intros Hsame. destruct (Hsame a) as [_ Hn].
  unfold coords_of, get_num. by rewrite !Hn.
Qed.

Lemma store_num_lookup (h : heap) (a b : addr) (k : string) (v : Qc) :
  nums (store_num h a k v b) !! k
  = if decide (b = a) then Some v else nums (h b) !! k.
Proof.
  unfold store_num, heap_set. destruct (decide (b = a)) as [->|]; [|done].
  cbn. by rewrite lookup_insert_eq.
Qed.

Lemma store_num_other (h : heap) (a b : addr) (k : string) (v : Qc) :
  b ≠ a → store_num h a k v b = h b.
Proof. intros Hne. unfold store_num, heap_set. by rewrite decide_False. Qed.

Lemma mapM_index_total {A} `{!Inhabited A} (l : list A) (route : list nat) :
  Forall (λ i, i < length l) route →
  mapM (index l) route = Ret ((λ i, l !!! i) <$> route).
Proof.
  induction 1 as [|i route Hi Hall IH]; [done|].
  cbn [mapM]. destruct (index_lt l i Hi) as (x & Hx & ->).
  cbn [mbind res_bind]. rewrite IH. cbn.
  by rewrite (list_lookup_total_correct _ _ _ Hx).
Qed.

Lemma fmap_lookup_total_seq {A} `{!Inhabited A} (l : list A) :
  (λ i, l !!! i) <$> seq 0 (length l) = l.
Proof.
  apply list_eq. intros i. rewrite list_lookup_fmap.
  destruct (decide (i < length l)) as [Hi|Hi].
  - rewrite lookup_seq_lt by done. cbn.
    destruct (lookup_lt_is_Some_2 l i Hi) as [x Hx].
    by rewrite Hx, (list_lookup_total_correct _ _ _ Hx).
  - rewrite lookup_seq_ge by lia. cbn. symmetry. apply lookup_ge_None. lia.
Qed.

Section OptimizerProps.

Variable geodesic : coord → coord → res Qc.
Hypothesis Hlib : returns_on_valid geodesic.
Abbreviation km := (km_of geodesic).

Lemma annotate_loop_spec (h0 : heap) (optimized : list addr) :
  Forall (λ a, valid_venue (h0 a)) optimized →
  ∀ range h total,
    same_but_distance h0 h →
    Forall (λ i, S i < length optimized) range →
    ∃ h',
      annotate_loop geodesic optimized range h total
      = Ret (h', (total + sum_km (leg km h0 optimized <$> range))%Qc) ∧
      same_but_distance h0 h' ∧
      (∀ a, a ∉ optimized → h' a = h a) ∧
      (NoDup optimized → NoDup range →
       ∀ i a, optimized !! i = Some a →
         nums (h' a) !! "distance_to_next"
         = if decide (i ∈ range)
           then Some (py_round (leg km h0 optimized i) 2)
           else nums (h a) !! "distance_to_next").
Proof.
  intros Hvalid.
  induction range as [|i range IH]; intros h total Hsame Hrange.
  - exists h. cbn. rewrite Qcplus_0_r. split; [done|].
    split; [done|]. split; [done|].
    intros _ _ i a _. by rewrite decide_False by apply not_elem_of_nil.
  - apply Forall_cons in Hrange as [Hi Hrange].
    destruct (index_lt optimized i) as (a1 & Ha1 & Hix1); [lia|].
    destruct (index_lt optimized (S i) Hi) as (a2 & Ha2 & Hix2).
    cbn [annotate_loop]. rewrite Nat.add_1_r, Hix1, Hix2.
    cbn [mbind res_bind].
    assert (calculate_distance geodesic
              (get_num (h a1) "latitude" 0%Qc) (get_num (h a1) "longitude" 0%Qc)
              (get_num (h a2) "latitude" 0%Qc) (get_num (h a2) "longitude" 0%Qc)
            = Ret (leg km h0 optimized i)) as ->.
    { unfold leg, calculate_distance.
      rewrite (list_lookup_total_correct _ _ _ Ha1),
              (list_lookup_total_correct _ _ _ Ha2).
      rewrite <- (same_but_distance_coords h0 h a1),
              <- (same_but_distance_coords h0 h a2) by done.
      apply (geodesic_on_valid geodesic Hlib).
      - rewrite (same_but_distance_coords h0 h a1) by done.
        by eapply (Forall_lookup_1 _ optimized) in Hvalid.
      - rewrite (same_but_distance_coords h0 h a2) by done.
        by eapply (Forall_lookup_1 _ optimized) in Hvalid. }
    cbn [mbind res_bind].
    set (d := leg km h0 optimized i).
    set (h1 := store_num h a1 "distance_to_next" (py_round d 2)).
    destruct (IH h1 (total + d)%Qc) as (h' & Hrun & Hsame' & Hout & Hdtn);
      [|done|].
    { eapply same_but_distance_trans; [done|]. apply store_distance_same. }
    exists h'. split; [|split; [done|split]].
    + rewrite Hrun. cbn. by rewrite Qcplus_assoc.
    + intros a Ha. rewrite Hout by done. apply store_num_other.
      intros ->. apply Ha. by eapply list_elem_of_lookup_2.
    + intros Hnd Hndr j a Hj. apply NoDup_cons in Hndr as [Hi' Hndr].
      rewrite (Hdtn Hnd Hndr j a Hj). subst h1. rewrite store_num_lookup.
      destruct (decide (j = i)) as [->|Hne].
      * assert (a = a1) as -> by congruence.
        rewrite (decide_False (P:=i ∈ range)) by done.
        rewrite decide_True by done. rewrite decide_True by left. done.
      * assert (a ≠ a1) as Hne'.
        { intros ->. apply Hne.
          eapply NoDup_lookup; [exact Hnd | exact Hj | exact Ha1]. }
        rewrite (decide_False (P:=a = a1)) by done.
        destruct (decide (j ∈ range)) as [Hin|Hnin].
        -- by rewrite decide_True by (by right).
        -- rewrite decide_False; [done|].
           intros [?|?]%elem_of_cons; done.
Qed.

Lemma leg_distances_seq (h : heap) (optimized : list addr) :
  leg km h optimized <$> seq 0 (length optimized - 1)
  = leg_distances km (h <$> optimized).
Proof.
  induction optimized as [|a [|b rest] IH]; [done..|].
  replace (length (a :: b :: rest) - 1) with (S (length (b :: rest) - 1))
    by (cbn [length]; lia).
  change (leg_distances km (h <$> a :: b :: rest))
    with (km (coords_of (h a)) (coords_of (h b))
          :: leg_distances km (h <$> b :: rest)).
  rewrite <- IH, <- cons_seq, fmap_cons, <- fmap_S_seq, <- list_fmap_compose.
  f_equal.
Qed.

Lemma optimize_route_spec (h : heap) (locations : list addr)
    (start : option coord) :
  Forall (λ a, valid_venue (h a)) locations →
  from_option valid_coordinate True start →
  locations ≠ [] →
  ∃ route h',
    let optimized := (λ i, locations !!! i) <$> route in
    nearest_neighbor_route geodesic ((λ a, coords_of (h a)) <$> locations) start
    = Ret route ∧
    route ≡ₚ seq 0 (length locations) ∧
    optimize_route geodesic h locations start
    = Ret (h', Routed optimized
                 (sum_km (leg_distances km (h <$> optimized)))) ∧
    optimized ≡ₚ locations ∧
    same_but_distance h h' ∧
    (∀ a, a ∉ locations → h' a = h a) ∧
    (NoDup locations →
     ∀ i a, optimized !! i = Some a →
       nums (h' a) !! "distance_to_next"
       = Some (if decide (S i < length optimized)
               then py_round (leg km h optimized i) 2
               else 0%Qc)).
Proof.
  intros Hvalid Hstart Hne.
  destruct (nearest_neighbor_route_returns geodesic Hlib
              ((λ a, coords_of (h a)) <$> locations) start)
    as (route & Hroute & Hperm); [|done|].
  { apply Forall_fmap. eapply Forall_impl; [exact Hvalid|]. done. }
  rewrite length_fmap in Hperm.
  set (optimized := (λ i, locations !!! i) <$> route).
  assert (optimized ≡ₚ locations) as Hopt.
  { subst optimized. rewrite Hperm. by rewrite fmap_lookup_total_seq. }
  assert (length optimized = length locations) as Hlen by (by rewrite Hopt).
  assert (0 < length locations) as Hpos by (destruct locations; [done | cbn; lia]).
  destruct (annotate_loop_spec h optimized) with
    (range := seq 0 (length optimized - 1)) (h := h) (total := 0%Qc)
    as (h1 & Hrun & Hsame & Hout & Hdtn).
  { by rewrite Hopt. }
  { apply same_but_distance_refl. }
  { apply Forall_forall. intros i Hi. apply elem_of_seq in Hi. lia. }
  rewrite Qcplus_0_l, leg_distances_seq in Hrun.
  destruct (lookup_lt_is_Some_2 optimized (pred (length optimized)))
    as [z Hz]; [lia|].
  exists route, (store_num h1 z "distance_to_next" 0%Qc).
  cbn zeta. fold optimized.
  split; [done|]. split; [done|]. split; [|split; [done|split; [|split]]].
  - destruct locations as [|a0 locations0]; [done|].
    set (locations := a0 :: locations0) in *.
    change (optimize_route geodesic h locations start) with
      (nearest_neighbor_route geodesic
         ((λ a, coords_of (h a)) <$> locations) start ≫= λ route_order,
       mapM (index locations) route_order ≫= λ optimized,
       annotate_loop geodesic optimized (seq 0 (length optimized - 1)) h 0%Qc
       ≫= λ '(h, total_distance),
       (if decide (0 < length optimized)
        then py_last optimized ≫= λ final,
             mret (store_num h final "distance_to_next" 0%Qc)
        else mret h) ≫= λ h,
       mret (h, Routed optimized total_distance)).
    rewrite Hroute. cbn [mbind res_bind].
    rewrite mapM_index_total.
    2:{ apply Forall_forall. intros i Hi. rewrite Hperm in Hi.
        apply elem_of_seq in Hi. lia. }
    cbn [mbind res_bind]. fold optimized. rewrite Hrun.
    cbn [mbind res_bind]. rewrite decide_True by lia.
    unfold py_last. rewrite last_lookup, Hz. done.
  - eapply same_but_distance_trans; [done|]. apply store_distance_same.
  - intros a Ha. rewrite <- Hopt in Ha.
    rewrite store_num_other; [by apply Hout|].
    intros ->. apply Ha. by eapply list_elem_of_lookup_2.
  - intros Hnd i a Hi. rewrite <- Hopt in Hnd.
    rewrite store_num_lookup.
    rewrite (Hdtn Hnd (NoDup_seq _ _) i a Hi).
    pose proof (lookup_lt_Some _ _ _ Hi) as Hilt.
    destruct (decide (S i < length optimized)) as [Hlt|Hge].
    + assert (a ≠ z) as Hne'.
      { intros ->.
        pose proof (NoDup_lookup _ _ _ _ Hnd Hi Hz). lia. }
      rewrite decide_False by done.
      rewrite decide_True; [done|]. apply elem_of_seq. lia.
    + assert (i = pred (length optimized)) as -> by lia.
      assert (a = z) as -> by congruence.
      by rewrite decide_True.
Qed.

End OptimizerProps.

(** ** Frame and totality of [optimize_route] *)

Lemma elem_of_concat {A} (x : A) (ls : list (list A)) :
  x ∈ concat ls → ∃ l, l ∈ ls ∧ x ∈ l.
Proof.
  induction ls as [|l ls IH]; cbn; [by intros ?%elem_of_nil|].
  intros [Hx|Hx]%elem_of_app.
  - exists l. split; [left | done].
  - destruct (IH Hx) as (l' & Hl' & Hx'). exists l'. split; [by right | done].
Qed.

Section FrameTheorems.

Variable geodesic : coord → coord → res Qc.
Hypothesis Hlib : returns_on_valid geodesic.
Abbreviation km := (km_of geodesic).

Lemma optimize_route_returns (h : heap) (locations : list addr)
    (start : option coord) :
  Forall (λ a, valid_venue (h a)) locations →
  from_option valid_coordinate True start →
  ∃ h' r,
    optimize_route geodesic h locations start = Ret (h', r) ∧
    match r with
    | EmptyRoute => locations = []
    | Routed optimized total =>
        optimized ≡ₚ locations ∧
        total = sum_km (leg_distances km (h <$> optimized))
    end ∧
    same_but_distance h h' ∧
    ∀ a, a ∉ locations → h' a = h a.
Proof.
  intros Hvalid Hstart.
  destruct (decide (locations = [])) as [->|Hne].
  - exists h, EmptyRoute. split; [done|]. split; [done|].
    split; [apply same_but_distance_refl | done].
  - destruct (optimize_route_spec geodesic Hlib h locations start
                Hvalid Hstart Hne)
      as (route & h' & _ & _ & Hrun & Hperm & Hsame & Hout & _).
    eexists h', _. split; [exact Hrun|]. done.
Qed.

(** The result reads the store at the venues of the list only. *)
Lemma optimize_route_reads_input (h g : heap) (locations : list addr)
    (start : option coord) :
  Forall (λ a, valid_venue (h a)) locations →
  from_option valid_coordinate True start →
  (∀ a, a ∈ locations → g a = h a) →
  ∀ h' r, optimize_route geodesic h locations start = Ret (h', r) →
  ∃ g', optimize_route geodesic g locations start = Ret (g', r).
Proof.
  intros Hvalid Hstart Hagree h' r Hrun.
  assert (Forall (λ a, valid_venue (g a)) locations) as Hvalid'.
  { apply Forall_forall. intros a Ha. rewrite Hagree by done.
    by eapply Forall_forall in Hvalid. }
  destruct (decide (locations = [])) as [->|Hne].
  - cbn in Hrun. injection Hrun as <- <-. by exists g.
  - destruct (optimize_route_spec geodesic Hlib h locations start
                Hvalid Hstart Hne)
      as (route & h1 & Hroute & Hperm & Hrun1 & Hopt & _).
    destruct (optimize_route_spec geodesic Hlib g locations start
                Hvalid' Hstart Hne)
      as (route' & g1 & Hroute' & _ & Hrun2 & _).
    cbn zeta in *.
    assert ((λ a, coords_of (g a)) <$> locations
            = (λ a, coords_of (h a)) <$> locations) as Hcoords.
    { apply list_fmap_ext. intros i a Ha.
      by rewrite Hagree by (by eapply list_elem_of_lookup_2). }
    rewrite Hcoords, Hroute in Hroute'. injection Hroute' as <-.
    rewrite Hrun1 in Hrun. injection Hrun as <- <-.
    exists g1. rewrite Hrun2.
    assert (g <$> ((λ i, locations !!! i) <$> route)
            = h <$> ((λ i, locations !!! i) <$> route)) as ->; [|done].
    apply list_fmap_ext. intros i a Ha. apply Hagree.
    rewrite <- Hopt. by eapply list_elem_of_lookup_2.
Qed.

(** C9. On venues whose coordinates are in range [optimize_route] only
    reorders the venues it is given and sets
    their [distance_to_next] field: the route is a rearrangement of the
    input list (same venues, same multiplicities), every other field of
    every venue is as before, no object outside the list is written, and
    the result depends on the store only through the venues of the
    list. *)
Theorem optimize_route_frame (h : heap) (locations : list addr)
    (start : option coord) :
  Forall (λ a, valid_venue (h a)) locations →
  from_option valid_coordinate True start →
  ∃ h' r,
    optimize_route geodesic h locations start = Ret (h', r) ∧
    match r with
    | EmptyRoute => locations = []
    | Routed optimized _ => optimized ≡ₚ locations
    end ∧
    same_but_distance h h' ∧
    (∀ a, a ∉ locations → h' a = h a) ∧
    (∀ g : heap, (∀ a, a ∈ locations → g a = h a) →
       ∃ g', optimize_route geodesic g locations start = Ret (g', r)).
Proof.
  intros Hvalid Hstart.
  destruct (optimize_route_returns h locations start Hvalid Hstart)
    as (h' & r & Hrun & Hr & Hsame & Hout).
  exists h', r. split; [done|]. split; [|split; [done|split; [done|]]].
  - destruct r as [|optimized total]; [done | by destruct Hr].
  - intros g Hagree. by eapply optimize_route_reads_input.
Qed.

(** C10 (as amended). A venue that lacks the 'latitude' or the 'longitude'
    key makes neither [optimize_route] nor [cluster_by_proximity] fail: the
    missing coordinate reads as 0 (the other one keeps its value, so the
    venue is at (0,0) when both are missing), the venue is part of the
    route, whose total is computed with these coordinates, and it is a
    member of a cluster. *)
Theorem missing_coordinate_defaults (h : heap) (locations : list addr)
    (start : option coord) (a : addr) (max_distance_km : Qc) :
  Forall (λ a, valid_venue (h a)) locations →
  from_option valid_coordinate True start →
  a ∈ locations →
  nums (h a) !! "latitude" = None ∨ nums (h a) !! "longitude" = None →
  (∃ h' optimized total,
     optimize_route geodesic h locations start
     = Ret (h', Routed optimized total) ∧
     a ∈ optimized ∧
     total = sum_km (leg_distances km (h <$> optimized))) ∧
  (∃ clusters cluster,
     cluster_by_proximity geodesic (h <$> locations) max_distance_km
     = Ret clusters ∧
     cluster ∈ clusters ∧ h a ∈ cluster) ∧
  coords_of (h a)
  = (default 0%Qc (nums (h a) !! "latitude"),
     default 0%Qc (nums (h a) !! "longitude")) ∧
  (nums (h a) !! "latitude" = None → (coords_of (h a)).1 = 0%Qc) ∧
  (nums (h a) !! "longitude" = None → (coords_of (h a)).2 = 0%Qc) ∧
  (nums (h a) !! "latitude" = None → nums (h a) !! "longitude" = None →
   coords_of (h a) = (0%Qc, 0%Qc)).
Proof.
  intros Hvalid Hstart Ha Hmiss. split; [|split; [|split; [done|]]].
  - destruct (optimize_route_returns h locations start Hvalid Hstart)
      as (h' & r & Hrun & Hr & _).
    destruct r as [|optimized total].
    + subst locations. by apply elem_of_nil in Ha.
    + destruct Hr as [Hperm ->]. eexists h', optimized, _.
      split; [done|]. split; [by rewrite Hperm | done].
  - assert (h a ∈ h <$> locations) as Hin by (by apply list_elem_of_fmap_2).
    destruct (h <$> locations) as [|v venues] eqn:Hvs;
      [by apply elem_of_nil in Hin|].
    destruct (cluster_loop_partition geodesic Hlib max_distance_km
                (length (v :: venues)) (v :: venues) [])
      as (clusters & Hrun & Hperm & _); [|done|].
    { rewrite <- Hvs. by apply Forall_fmap. }
    rewrite <- Hperm in Hin. apply elem_of_concat in Hin as (c & Hc1 & Hc2).
    by exists clusters, c.
  - unfold coords_of, get_num. cbn.
    split; [by intros -> | split; [by intros -> | by intros -> ->]].
Qed.

End FrameTheorems.

(** ** Route assembly *)

Lemma mapM_res_total {A B} (f : A → res B) (l : list A) :
  Forall (λ x, ∃ y, f x = Ret y) l →
  ∃ ys, mapM f l = Ret ys ∧ Forall2 (λ x y, f x = Ret y) l ys.
Proof.
  induction 1 as [|x l [y Hy] Hall (ys & IH & Hys)].
  - by exists [].
  - exists (y :: ys). cbn [mapM]. rewrite Hy. cbn [mbind res_bind].
    rewrite IH. split; [done | by constructor].
Qed.

Lemma hotel_locations_keys files hotel :
  Forall has_lat_lng (hotel_locations files hotel).
Proof.
  unfold hotel_locations.
  destruct (if decide _ then _ else _) as [lat lng].
  case_decide; [|done]. constructor; [|done].
  split; cbn; [by rewrite lookup_insert_eq|].
  rewrite lookup_insert_ne by done. by rewrite lookup_insert_eq.
Qed.

Lemma attraction_locations_keys day slot a :
  Forall has_lat_lng (attraction_locations day slot a).
Proof.
  unfold attraction_locations. case_decide; [|done]. constructor; [|done].
  split; cbn; [by rewrite lookup_insert_eq|].
  rewrite lookup_insert_ne by done. by rewrite lookup_insert_eq.
Qed.

Lemma restaurant_locations_keys day meal r :
  Forall has_lat_lng (restaurant_locations day meal r).
Proof.
  unfold restaurant_locations. case_decide; [|done]. constructor; [|done].
  split; cbn; [by rewrite lookup_insert_eq|].
  rewrite lookup_insert_ne by done. by rewrite lookup_insert_eq.
Qed.

Lemma extract_locations_keys files p :
  Forall has_lat_lng (extract_locations files p).
Proof.
  unfold extract_locations. rewrite !Forall_app. split; [|split].
  - apply Forall_bind, Forall_forall. intros h _. apply hotel_locations_keys.
  - apply Forall_bind, Forall_forall. intros [day slots] _. cbn.
    rewrite !Forall_app. repeat split; [| |done];
      apply Forall_bind, Forall_forall; intros a _;
      apply attraction_locations_keys.
  - apply Forall_bind, Forall_forall. intros [day meals] _. cbn.
    apply Forall_bind, Forall_forall. intros [meal rs] _. cbn.
    apply Forall_bind, Forall_forall. intros r _.
    apply restaurant_locations_keys.
Qed.

Lemma add_to_day_Forall (P : pydict → Prop) day loc by_day :
  P loc →
  Forall (λ dl, Forall P dl.2) by_day →
  Forall (λ dl, Forall P dl.2) (add_to_day day loc by_day).
Proof.
  intros Hloc. induction 1 as [|[d ls] rest Hls Hrest IH]; cbn.
  - repeat constructor. done.
  - case_decide.
    + constructor; [|done]. cbn in *. apply Forall_app. by split; [|repeat constructor].
    + by constructor.
Qed.

Lemma group_by_day_Forall (P : pydict → Prop) locations :
  Forall P locations →
  Forall (λ dl, Forall P dl.2) (group_by_day locations).
Proof.
  unfold group_by_day.
  assert (∀ acc, Forall (λ dl, Forall P dl.2) acc → Forall P locations →
          Forall (λ dl : string * list pydict, Forall P dl.2)
            (foldl (λ by_day loc, add_to_day (get_str loc "day" "Day 1") loc by_day)
               acc locations)) as Hgen.
  { induction locations as [|loc locations IH]; intros acc Hacc Hall; [done|].
    apply Forall_cons in Hall as [Hloc Hall]. cbn.
    apply IH; [|done]. by apply add_to_day_Forall. }
  intros Hall. by apply Hgen.
Qed.

Lemma loc_for_opt_returns (l : pydict) :
  has_lat_lng l → ∃ d, loc_for_opt l = Ret d.
Proof.
  intros [[lat Hlat] [lng Hlng]]. unfold loc_for_opt, item_num.
  rewrite Hlat, Hlng. cbn. eauto.
Qed.

Section AssemblerProps.

Variable geodesic : coord → coord → res Qc.
Hypothesis Hlib : returns_on_valid geodesic.
Abbreviation km := (km_of geodesic).

Lemma leg_distances_same_coords (h h' : heap) (l : list addr) :
  (∀ a, coords_of (h' a) = coords_of (h a)) →
  leg_distances km (h' <$> l) = leg_distances km (h <$> l).
Proof.
  intros Hc. rewrite <- !leg_distances_seq.
  apply list_fmap_ext. intros i x _. unfold leg. by rewrite !Hc.
Qed.

Lemma fresh_heap_valid (ds : list pydict) :
  Forall valid_venue ds →
  Forall (λ a, valid_venue (fresh_heap ds a)) (seq 0 (length ds)).
Proof.
  intros Hds. apply Forall_forall. intros a Ha. apply elem_of_seq in Ha.
  destruct (lookup_lt_is_Some_2 ds a) as [d Hd]; [lia|].
  unfold fresh_heap. rewrite Hd. cbn. by eapply Forall_lookup_1.
Qed.

Lemma route_of_day_spec (day_locations : list pydict) :
  Forall has_lat_lng day_locations →
  Forall valid_location day_locations →
  ∃ r,
    route_of_day geodesic day_locations = Ret r ∧
    length (route_locations r) = length day_locations ∧
    (2 ≤ length day_locations →
     annotated km (λ d, py_round d 2) r).
Proof.
  intros Hkeys Hvalid. unfold route_of_day.
  destruct (decide (1 < length day_locations)) as [Hlen|Hlen].
  2:{ exists (DayRoute day_locations 0%Qc). split; [done|]. split; [done|]. lia. }
  destruct (mapM_res_total loc_for_opt day_locations) as (ds & Hds & Hall).
  { eapply Forall_impl; [exact Hkeys|]. apply loc_for_opt_returns. }
  assert (Forall valid_venue ds) as Hds_valid.
  { clear Hds Hlen Hkeys. induction Hall as [|l d ls ds Hl Hall IH]; [done|].
    apply Forall_cons in Hvalid as [Hv Hvalid].
    constructor; [|by apply IH].
    unfold valid_location in Hv. by rewrite Hl in Hv. }
  apply Forall2_length in Hall.
  rewrite Hds. cbn [mbind res_bind].
  set (h0 := fresh_heap ds). set (refs := seq 0 (length ds)).
  destruct (optimize_route_spec geodesic Hlib h0 refs None)
    as (route & h' & _ & _ & Hrun & Hperm & Hsame & _ & Hdtn).
  { by apply fresh_heap_valid. }
  { done. }
  { subst refs. destruct ds as [|d ds]; [cbn in Hall; lia | done]. }
  cbn zeta in *. set (optimized := (λ i, refs !!! i) <$> route) in *.
  specialize (Hdtn (NoDup_seq _ _)).
  rewrite Hrun. cbn [mbind res_bind].
  eexists. split; [done|]. unfold annotated.
  cbn [route_locations total_distance_km].
  assert (∀ a, coords_of (h' a) = coords_of (h0 a)) as Hcoords.
  { intros a. by apply same_but_distance_coords. }
  split; [|intros _; split; [|split]].
  - rewrite length_fmap, Hperm. subst refs. by rewrite length_seq.
  - intros i v w Hv Hw. rewrite list_lookup_fmap in Hv, Hw.
    destruct (optimized !! i) as [a|] eqn:Ha; [|done].
    destruct (optimized !! S i) as [b|] eqn:Hb; [|done].
    cbn in Hv, Hw. simplify_eq.
    rewrite (Hdtn i a Ha).
    rewrite decide_True by (by eapply lookup_lt_Some).
    unfold leg.
    rewrite (list_lookup_total_correct _ _ _ Ha),
            (list_lookup_total_correct _ _ _ Hb).
    by rewrite !Hcoords.
  - intros z Hz. rewrite fmap_last in Hz.
    destruct (last optimized) as [a|] eqn:Ha; [|done].
    cbn in Hz. simplify_eq. rewrite last_lookup in Ha.
    rewrite (Hdtn _ a Ha). rewrite decide_False; [done|].
    pose proof (lookup_lt_Some _ _ _ Ha). lia.
  - f_equal. symmetry. by apply leg_distances_same_coords.
Qed.

Lemma routes_of_days_spec (groups : list (string * list pydict)) :
  Forall (λ dl, Forall (λ l, has_lat_lng l ∧ valid_location l) dl.2) groups →
  ∃ routes,
    mapM (λ '(day, day_locations),
            r ← route_of_day geodesic day_locations; mret (day, r)) groups
    = Ret routes ∧
    Forall (λ dr : string * day_route,
              2 ≤ length (route_locations dr.2) →
              annotated km (λ d, py_round d 2) dr.2) routes.
Proof.
  induction 1 as [|[day dl] groups Hdl Hgroups (routes & IH & Hall)].
  - by exists [].
  - cbn in Hdl. apply Forall_and in Hdl as [Hkeys Hvalid].
    destruct (route_of_day_spec dl Hkeys Hvalid) as (r & Hr & Hlen & Hann).
    exists ((day, r) :: routes). cbn [mapM]. rewrite Hr.
    cbn [mbind res_bind]. rewrite IH. split; [done|].
    constructor; [|done]. cbn. intros Hlen'. apply Hann. lia.
Qed.

Lemma calculate_route_spec (files : list data_file) (p : plan) :
  Forall valid_location (extract_locations files p) →
  ∃ result,
    calculate_route geodesic files p = Ret result ∧
    ∀ routes, result = Routes routes →
      Forall (λ dr : string * day_route,
                2 ≤ length (route_locations dr.2) →
                annotated km (λ d, py_round d 2) dr.2) routes.
Proof.
  intros Hvalid. unfold calculate_route. cbn zeta.
  destruct (decide (length (extract_locations files p) < 2)).
  - exists NoRoutes. split; [done|]. intros routes Hr. done.
  - destruct (routes_of_days_spec (group_by_day (extract_locations files p)))
      as (routes & Hrun & Hall).
    { apply group_by_day_Forall, Forall_and.
      split; [apply extract_locations_keys | done]. }
    exists (Routes routes). rewrite Hrun. split; [done|].
    intros routes' Hr. by simplify_eq.
Qed.

(** C3 (as amended). When the extracted locations have coordinates in
    range, for every day list of two or more locatable venues the route [calculate_route] obtains from [optimize_route] carries, on
    each venue but the last, the distance to the next venue rounded to two
    decimals, on the last venue 0, and its total distance is the exact sum
    of the (unrounded) distances of the consecutive pairs, in route
    order. *)
Theorem day_route_annotated (files : list data_file) (p : plan) :
  Forall valid_location (extract_locations files p) →
  ∃ result,
    calculate_route geodesic files p = Ret result ∧
    ∀ routes day r,
      result = Routes routes →
      (day, r) ∈ routes →
      2 ≤ length (route_locations r) →
      annotated km (λ d, py_round d 2) r.
Proof.
  intros Hvalid.
  destruct (calculate_route_spec files p Hvalid) as (result & Hrun & Hall).
  exists result. split; [done|]. intros routes day r Hr Hin Hlen.
  specialize (Hall routes Hr).
  eapply Forall_forall in Hall; [|exact Hin]. by apply Hall.
Qed.

End AssemblerProps.

(** ** Venues without coordinates *)

Section FallbackTheorems.

Variable geodesic : coord → coord → res Qc.
Hypothesis Hlib : returns_on_valid geodesic.

Lemma calculate_route_extract (files : list data_file) (p p' : plan) :
  extract_locations files p = extract_locations files p' →
  calculate_route geodesic files p = calculate_route geodesic files p'.
Proof. intros Heq. unfold calculate_route. by rewrite Heq. Qed.

Lemma build_response_returns (files : list data_file) (p : plan) :
  Forall valid_location (extract_locations files p) →
  ∃ resp, build_response geodesic files p = Ret resp ∧ resp_plan resp = p.
Proof.
  intros Hvalid.
  destruct (calculate_route_spec geodesic Hlib files p Hvalid)
    as (result & Hrun & _).
  unfold build_response. rewrite Hrun. cbn. eauto.
Qed.

(** C5 (as amended). For a hotel whose coordinate is exactly (0,0)
    [extract_locations] asks [get_hotel_coordinates] for a coordinate and
    uses the answer; when there is none the hotel is left out of the
    locations, hence of every day's route and of every distance (locations
    and routes are those of the plan without the hotel), while the plan
    handed back in the response still lists it; building the response
    never fails (the located venues having coordinates in range).  An
    attraction with a zero or missing coordinate is left
    out without any lookup. *)
Theorem unresolved_hotel_excluded (files : list data_file) (p : plan)
    (hs1 hs2 : list pydict) (hotel : pydict) :
  Forall valid_location (extract_locations files p) →
  hotels p = hs1 ++ hotel :: hs2 →
  get_num hotel "latitude" 0%Qc = 0%Qc →
  get_num hotel "longitude" 0%Qc = 0%Qc →
  let p' := Plan (hs1 ++ hs2) (attractions p) (restaurants p) in
  let resolved :=
    get_hotel_coordinates files (get_str hotel "name" "")
      (get_str hotel "address" "") in
  (∀ lat lng, resolved = Some (lat, lng) → lat ≠ 0%Qc → lng ≠ 0%Qc →
     ∃ d, hotel_locations files hotel = [d] ∧
          nums d !! "lat" = Some lat ∧ nums d !! "lng" = Some lng) ∧
  (resolved = None →
     hotel_locations files hotel = [] ∧
     extract_locations files p = extract_locations files p' ∧
     calculate_route geodesic files p
     = calculate_route geodesic files p') ∧
  (∃ resp, build_response geodesic files p = Ret resp ∧
           hotel ∈ hotels (resp_plan resp)) ∧
  (∀ day slot attraction,
     get_num attraction "latitude" 0%Qc = 0%Qc
     ∨ get_num attraction "longitude" 0%Qc = 0%Qc →
     attraction_locations day slot attraction = []).
Proof.
  intros Hvalid Hhotels Hlat Hlng p' resolved.
  assert (resolved = None → hotel_locations files hotel = []) as Hnone.
  { intros Hres. unfold hotel_locations. rewrite Hlat, Hlng.
    rewrite decide_True by done. fold resolved. rewrite Hres.
    rewrite decide_False; [done|]. by intros [? _]. }
  split; [|split; [|split]].
  - intros lat lng Hres Hlat' Hlng'. unfold hotel_locations.
    rewrite Hlat, Hlng. rewrite decide_True by done.
    fold resolved. rewrite Hres. rewrite decide_True by done.
    eexists. split; [done|]. cbn.
    split; [by rewrite lookup_insert_eq|].
    rewrite lookup_insert_ne by done. by rewrite lookup_insert_eq.
  - intros Hres. split; [by apply Hnone|].
    assert (extract_locations files p = extract_locations files p') as Heq.
    { unfold extract_locations. subst p'. cbn [hotels attractions restaurants].
      rewrite Hhotels. f_equal.
      rewrite !bind_app, bind_cons, (Hnone Hres). done. }
    split; [done | by apply calculate_route_extract].
  - destruct (build_response_returns files p Hvalid) as (resp & Hrun & Hplan).
    exists resp. split; [done|]. rewrite Hplan, Hhotels.
    apply elem_of_app. right. left.
  - intros day slot a Hzero. unfold attraction_locations.
    rewrite decide_False; [done|]. intros [Hla Hlo].
    unfold truthy_num, get_num in *.
    destruct Hzero as [Hz|Hz].
    + destruct (nums a !! "latitude"); [|done]. cbn in Hz. done.
    + destruct (nums a !! "longitude"); [|done]. cbn in Hz. done.
Qed.

End FallbackTheorems.

(** ** Errors of the distance library *)

Section LibraryErrors.

(** Nothing is assumed of the library here. *)
Variable geodesic : coord → coord → res Qc.







End LibraryErrors.

(** ** The theorems at work on examples *)

Ltac by_evaluation := apply (bool_decide_unpack _); vm_compute; exact I.

Lemma grid_call_returns : returns_on_valid grid_call.
Proof. intros a b _ _. by eexists. Qed.

Lemma strict_call_returns : returns_on_valid strict_call.
Proof.
  intros a b Ha Hb. unfold strict_call. rewrite decide_True by done. by eexists.
Qed.

(** The example of section 8: from index 0 the walk visits 1 before 2. *)
Example three_stops_route :
  nearest_neighbor_route grid_call three_stops None = Ret [0; 1; 2].
Proof. by vm_compute. Qed.

Example three_stops_route_from_east :
  nearest_neighbor_route grid_call three_stops (Some (num 50, num (-119)))
  = Ret [2; 1; 0].
Proof. by vm_compute. Qed.

Lemma nearest_neighbor_route_permutation_witness :
  ∃ route,
    nearest_neighbor_route grid_call three_stops None = Ret route ∧
    route ≡ₚ [0; 1; 2] ∧ NoDup route ∧ length route = 3.
Proof.
  assert (Forall valid_coordinate three_stops) as Hvalid by by_evaluation.
  destruct (nearest_neighbor_route_permutation grid_call grid_call_returns
              three_stops None Hvalid I)
    as [(route & Hrun & Hperm & Hnd & Hlen & _) _].
  exists route. split; [exact Hrun|]. split; [exact Hperm|].
  split; [exact Hnd | exact Hlen].
Defined.

Lemma nearest_neighbor_route_greedy_witness :
  ∃ route,
    nearest_neighbor_route grid_call three_stops (Some (num 50, num (-119)))
    = Ret route ∧
    nearest_to grid_km three_stops (coord_at three_stops 2)
      (filter (λ y, y ∉ take 1 route) [0; 1; 2]) 1.
Proof.
  assert (Forall valid_coordinate three_stops) as Hvalid by by_evaluation.
  assert (valid_coordinate (num 50, num (-119))) as Hstart by by_evaluation.
  destruct (nearest_neighbor_route_greedy grid_call grid_call_returns
              (dec 4928 100, dec (-12312) 100)
              [(dec 4929 100, dec (-12310) 100); (dec 5000 100, dec (-11950) 100)]
              (Some (num 50, num (-119))) Hvalid Hstart)
    as (route & Hrun & _ & _ & Hstep).
  exists route. split; [exact Hrun|].
  assert (route = [2; 1; 0]) as Hroute.
  { pose proof three_stops_route_from_east as Hex.
    unfold three_stops in Hex. rewrite Hex in Hrun. by injection Hrun. }
  apply (Hstep 0 2 1); by rewrite Hroute.
Defined.



Example three_venues_clusters :
  ∃ harbour lake market,
    three_venues = [harbour; lake; market] ∧
    cluster_by_proximity grid_call three_venues (num 5)
    = Ret [[harbour; market]; [lake]].
Proof. do 3 eexists. split; [reflexivity|]. by vm_compute. Qed.


(** The day route of [near_plan]: the first leg is 0.0111 km long and the
    venue carries 0.01. *)
Example near_plan_route :
  ∃ north south,
    calculate_route grid_call [] near_plan
    = Ret (Routes [("Day 1"%string, DayRoute [north; south] (dec 111 10000))]) ∧
    nums north !! "distance_to_next" = Some (dec 1 100) ∧
    nums south !! "distance_to_next" = Some 0%Qc ∧
    grid_km (coords_of north) (coords_of south) = dec 111 10000.
Proof.
  do 2 eexists. split; [by vm_compute|].
  split; [|split]; by_evaluation.
Qed.

Lemma day_route_annotated_witness :
  ∃ r,
    calculate_route grid_call [] near_plan = Ret (Routes [("Day 1"%string, r)]) ∧
    2 ≤ length (route_locations r) ∧
    annotated grid_km (λ d, py_round d 2) r.
Proof.
  assert (Forall valid_location (extract_locations [] near_plan)) as Hvalid
    by by_evaluation.
  destruct (day_route_annotated grid_call grid_call_returns [] near_plan Hvalid)
    as (result & Hrun & Hann).
  destruct near_plan_route as (north & south & Hex & _).
  rewrite Hex in Hrun. injection Hrun as <-.
  exists (DayRoute [north; south] (dec 111 10000)).
  split; [exact Hex|]. split; [cbn; lia|].
  eapply Hann; [reflexivity | left | cbn; lia].
Defined.

(** Counterexample to C3 as stated: the field does not hold the distance
    itself. *)
Lemma distance_to_next_is_rounded :
  ∃ r,
    calculate_route grid_call [] near_plan = Ret (Routes [("Day 1"%string, r)]) ∧
    2 ≤ length (route_locations r) ∧
    ¬ annotated grid_km (λ d, d) r.
Proof.
  destruct near_plan_route as (north & south & Hex & Hn & _ & Hd).
  eexists. split; [exact Hex|]. split; [cbn; lia|].
  intros [Hlegs _]. specialize (Hlegs 0 north south eq_refl eq_refl).
  rewrite Hn, Hd in Hlegs. injection Hlegs as Hq. discriminate Hq.
Qed.

(** The lodge has no coordinate.  With no data file it is left out; with a
    file that knows it, it is routed at the coordinate found there. *)
Example lodge_unresolved :
  get_hotel_coordinates [] "Lodge" "" = None ∧
  hotel_locations [] lodge = [] ∧
  length (extract_locations [] lodge_plan) = 2.
Proof. by vm_compute. Qed.

Example lodge_resolved :
  get_hotel_coordinates [lodge_file] "Lodge" "" = Some (dec 492 10, dec (-1231) 10) ∧
  length (hotel_locations [lodge_file] lodge) = 1.
Proof. split; [|by vm_compute]. by_evaluation. Qed.

Lemma unresolved_hotel_excluded_witness :
  hotels lodge_plan = [] ++ lodge :: [] ∧
  get_num lodge "latitude" 0%Qc = 0%Qc ∧
  get_num lodge "longitude" 0%Qc = 0%Qc ∧
  get_hotel_coordinates [] (get_str lodge "name" "") (get_str lodge "address" "")
  = None ∧
  extract_locations [] lodge_plan
  = extract_locations [] (Plan [] (attractions lodge_plan) (restaurants lodge_plan)) ∧
  calculate_route grid_call [] lodge_plan
  = calculate_route grid_call []
      (Plan [] (attractions lodge_plan) (restaurants lodge_plan)) ∧
  ∃ resp, build_response grid_call [] lodge_plan = Ret resp ∧
          lodge ∈ hotels (resp_plan resp).
Proof.
  assert (get_hotel_coordinates [] (get_str lodge "name" "")
            (get_str lodge "address" "") = None) as Hnone by reflexivity.
  assert (Forall valid_location (extract_locations [] lodge_plan)) as Hvalid
    by by_evaluation.
  destruct (unresolved_hotel_excluded grid_call grid_call_returns [] lodge_plan
              [] [] lodge Hvalid eq_refl eq_refl eq_refl)
    as (_ & Hout & Hresp & _).
  destruct (Hout Hnone) as (_ & Hlocs & Hroute).
  split; [reflexivity|]. split; [reflexivity|]. split; [reflexivity|].
  split; [exact Hnone|]. split; [exact Hlocs|]. split; [exact Hroute|].
  exact Hresp.
Defined.

(** Counterexample to C5 as stated.  A restaurant at (0,0), for which no
    coordinate can be found, is among the extracted locations, in the day's
    route and in its distance.  An attraction at (0,0) is left out although
    the data files hold a coordinate under its name: nothing is looked
    up for it. *)
Lemma zero_coordinate_venue_kinds_differ :
  (coords_of cafe = (0%Qc, 0%Qc) ∧
   get_hotel_coordinates [] (get_str cafe "name" "") (get_str cafe "address" "")
   = None ∧
   ∃ loc r v,
     loc ∈ extract_locations [] cafe_plan ∧
     strs loc !! "name" = Some "Cafe"%string ∧
     nums loc !! "lat" = Some 0%Qc ∧
     nums loc !! "lng" = Some 0%Qc ∧
     calculate_route grid_call [] cafe_plan = Ret (Routes [("Day 1"%string, r)]) ∧
     v ∈ route_locations r ∧
     strs v !! "name" = Some "Cafe"%string ∧
     nums v !! "distance_to_next" = Some (num 19092) ∧
     total_distance_km r = num 19092) ∧
  (coords_of lodge_garden = (0%Qc, 0%Qc) ∧
   get_hotel_coordinates [lodge_file] (get_str lodge_garden "name" "")
     (get_str lodge_garden "address" "")
   = Some (dec 492 10, dec (-1231) 10) ∧
   attraction_locations "Day 1" "morning" lodge_garden = [] ∧
   extract_locations [lodge_file]
     (Plan [] [("Day 1"%string, {["morning"%string := [lodge_garden]]})] [])
   = []).
Proof.
  split.
  - split; [reflexivity|]. split; [reflexivity|].
    do 3 eexists. split; [left|]. split; [by vm_compute|].
    split; [by_evaluation|]. split; [by_evaluation|].
    split; [by vm_compute|]. split; [left|]. split; [by vm_compute|].
    split; by_evaluation.
  - split; [reflexivity|]. split; [by_evaluation|].
    split; by vm_compute.
Qed.

(** [optimize_route] on three venue objects: the route is a rearrangement of
    the references, the far venue last. *)
Example three_venues_optimized :
  ∃ h' total,
    optimize_route grid_call (fresh_heap three_venues) [0; 1; 2] None
    = Ret (h', Routed [0; 2; 1] total) ∧
    total = dec 24087 50 ∧
    nums (h' 0) !! "distance_to_next" = Some (dec 333 100) ∧
    nums (h' 2) !! "distance_to_next" = Some (dec 47841 100) ∧
    nums (h' 1) !! "distance_to_next" = Some 0%Qc.
Proof.
  do 2 eexists. split; [by vm_compute|].
  split; [|split; [|split]]; by_evaluation.
Qed.

Lemma optimize_route_frame_witness :
  ∃ h' optimized total,
    optimize_route grid_call (fresh_heap three_venues) [0; 1; 2] None
    = Ret (h', Routed optimized total) ∧
    optimized ≡ₚ [0; 1; 2] ∧
    same_but_distance (fresh_heap three_venues) h' ∧
    h' 7 = fresh_heap three_venues 7 ∧
    ∃ g', optimize_route grid_call
            (heap_set (fresh_heap three_venues) 7 cafe) [0; 1; 2] None
          = Ret (g', Routed optimized total).
Proof.
  assert (Forall (λ a, valid_venue (fresh_heap three_venues a)) [0; 1; 2])
    as Hvalid by by_evaluation.
  destruct (optimize_route_frame grid_call grid_call_returns
              (fresh_heap three_venues) [0; 1; 2] None Hvalid I)
    as (h' & r & Hrun & Hr & Hsame & Hout & Hpure).
  destruct r as [|optimized total]; [discriminate Hr|].
  exists h', optimized, total.
  split; [exact Hrun|]. split; [exact Hr|]. split; [exact Hsame|]. split.
  - apply Hout. intros Hin. apply list_elem_of_In in Hin. cbn in Hin.
    intuition discriminate.
  - apply Hpure. intros a Ha. unfold heap_set.
    destruct (decide (a = 7)) as [->|]; [|reflexivity].
    apply list_elem_of_In in Ha. cbn in Ha. intuition discriminate.
Defined.

(** A venue with a longitude only is at (0, longitude). *)
Lemma missing_coordinate_defaults_witness :
  Forall (λ a, valid_venue (fresh_heap [only_longitude; bistro] a)) [0; 1] ∧
  0 ∈ [0; 1] ∧
  (nums (fresh_heap [only_longitude; bistro] 0) !! "latitude" = None ∨
   nums (fresh_heap [only_longitude; bistro] 0) !! "longitude" = None) ∧
  (∃ h' optimized total,
     optimize_route grid_call (fresh_heap [only_longitude; bistro]) [0; 1] None
     = Ret (h', Routed optimized total) ∧ 0 ∈ optimized) ∧
  (∃ clusters cluster,
     cluster_by_proximity grid_call
       (fresh_heap [only_longitude; bistro] <$> [0; 1]) (num 5) = Ret clusters ∧
     cluster ∈ clusters ∧ only_longitude ∈ cluster) ∧
  (coords_of only_longitude).1 = 0%Qc.
Proof.
  assert (0 ∈ [0; 1]) as Hin by left.
  assert (nums (fresh_heap [only_longitude; bistro] 0) !! "latitude" = None ∨
          nums (fresh_heap [only_longitude; bistro] 0) !! "longitude" = None)
    as Hmiss by (left; reflexivity).
  assert (Forall (λ a, valid_venue (fresh_heap [only_longitude; bistro] a))
            [0; 1]) as Hvalid by by_evaluation.
  destruct (missing_coordinate_defaults grid_call grid_call_returns
              (fresh_heap [only_longitude; bistro]) [0; 1] None 0 (num 5)
              Hvalid I Hin Hmiss)
    as ((h' & optimized & total & Hrun & Ha & _) & Hcl & _ & Hlat & _).
  split; [exact Hvalid|].
  split; [exact Hin|]. split; [exact Hmiss|]. split; [|split].
  - exists h', optimized, total. split; [exact Hrun | exact Ha].
  - exact Hcl.
  - apply Hlat. reflexivity.
Defined.

(** Counterexample to C10 as stated: a venue that lacks the 'latitude' key
    is not treated as located at (0,0) when it has a longitude; the route
    distance is the one from (0, 5). *)
Lemma missing_latitude_not_origin :
  nums only_longitude !! "latitude" = None ∧
  coords_of only_longitude = (0%Qc, num 5) ∧
  coords_of only_longitude ≠ (0%Qc, 0%Qc) ∧
  ∃ h' optimized,
    optimize_route grid_call (fresh_heap [only_longitude; bistro]) [0; 1] None
    = Ret (h', Routed optimized (grid_km (0%Qc, num 5) (coords_of bistro))) ∧
    grid_km (0%Qc, num 5) (coords_of bistro)
    ≠ grid_km (0%Qc, 0%Qc) (coords_of bistro).
Proof.
  split; [reflexivity|]. split; [reflexivity|]. split.
  - intros Heq. apply (f_equal (λ c, this c.2)) in Heq. discriminate Heq.
  - do 2 eexists. split.
    + vm_compute. reflexivity.
    + intros Heq. apply (f_equal this) in Heq. vm_compute in Heq.
      discriminate Heq.
Qed.



(* ================================================================== *)
(** * Part III: further properties of the code *)
(* ================================================================== *)

(** ** Filters *)

Lemma filter_all {A} (P : A → Prop) `{!∀ x, Decision (P x)} (l : list A) :
  Forall P l → filter P l = l.
Proof.
  induction 1 as [|x l Hx Hall IH]; [done|].
  by rewrite filter_cons_True, IH.
Qed.

Lemma filter_none {A} (P : A → Prop) `{!∀ x, Decision (P x)} (l : list A) :
  Forall (λ x, ¬ P x) l → filter P l = [].
Proof.
  induction 1 as [|x l Hx Hall IH]; [done|].
  by rewrite filter_cons_False.
Qed.

Lemma filter_ext_in {A} (P Q : A → Prop) `{!∀ x, Decision (P x)}
    `{!∀ x, Decision (Q x)} (l : list A) :
  (∀ x, x ∈ l → P x ↔ Q x) → filter P l = filter Q l.
Proof.
  induction l as [|x l IH]; intros Hext; [done|].
  rewrite !filter_cons.
  rewrite IH by (intros y Hy; apply Hext; by right).
  destruct (decide (P x)) as [HP|HP], (decide (Q x)) as [HQ|HQ]; try done;
    exfalso; apply (Hext x) in HP || apply (Hext x) in HQ; done || by left.
Qed.

Lemma filter_disjoint_app {A} (P Q : A → Prop) `{!∀ x, Decision (P x)}
    `{!∀ x, Decision (Q x)} (l : list A) :
  (∀ x, P x → Q x → False) →
  filter P l ++ filter Q l ≡ₚ filter (λ x, P x ∨ Q x) l.
Proof.
  intros Hdisj. induction l as [|x l IH]; [done|].
  rewrite !filter_cons.
  destruct (decide (P x)) as [HP|HP], (decide (Q x)) as [HQ|HQ].
  - by destruct (Hdisj x).
  - rewrite decide_True by (by left). cbn. by f_equiv.
  - rewrite decide_True by (by right).
    rewrite <- Permutation_middle. by f_equiv.
  - rewrite decide_False by tauto. done.
Qed.

(** ** First occurrences *)

Lemma elem_of_first_occurrences {A} `{EqDecision A} (l : list A) (y : A) :
  y ∈ first_occurrences l ↔ y ∈ l.
Proof.
  induction l as [|x l IH]; [done|]. cbn [first_occurrences].
  rewrite !elem_of_cons, list_elem_of_filter, IH.
  destruct (decide (y = x)); tauto.
Qed.

Lemma NoDup_first_occurrences {A} `{EqDecision A} (l : list A) :
  NoDup (first_occurrences l).
Proof.
  induction l as [|x l IH]; [constructor|]. cbn [first_occurrences].
  constructor; [|by apply NoDup_filter].
  intros Hin. by apply list_elem_of_filter in Hin as [Hne _].
Qed.

(** ** Grouping by day *)

Lemma add_to_day_present (day : string) (loc : pydict)
    (by_day : list (string * list pydict)) :
  NoDup by_day.*1 →
  day ∈ by_day.*1 →
  add_to_day day loc by_day
  = (λ dl, (dl.1, if decide (dl.1 = day) then dl.2 ++ [loc] else dl.2))
      <$> by_day.
Proof.
  induction by_day as [|[d ls] rest IH]; intros Hnd Hin.
  - by apply elem_of_nil in Hin.
  - cbn in Hnd, Hin. apply NoDup_cons in Hnd as [Hd Hnd].
    cbn [add_to_day fmap list_fmap fst snd].
    destruct (decide (d = day)) as [->|Hne].
    + f_equal. symmetry.
      transitivity (id <$> rest); [|apply list_fmap_id].
      apply list_fmap_ext. intros i [d' ls'] Hi. cbn.
      rewrite decide_False; [done|]. intros ->. apply Hd.
      apply list_elem_of_fmap. exists (day, ls'). split; [done|].
      by eapply list_elem_of_lookup_2.
    + f_equal. apply IH; [done|].
      apply elem_of_cons in Hin as [?|?]; [congruence | done].
Qed.

Lemma add_to_day_absent (day : string) (loc : pydict)
    (by_day : list (string * list pydict)) :
  day ∉ by_day.*1 →
  add_to_day day loc by_day = by_day ++ [(day, [loc])].
Proof.
  induction by_day as [|[d ls] rest IH]; intros Hnin; [done|].
  cbn in Hnin. apply not_elem_of_cons in Hnin as [Hne Hnin].
  cbn [add_to_day]. rewrite decide_False by done.
  cbn. f_equal. by apply IH.
Qed.

Lemma filter_day_cons (d : string) (x : pydict) (locs : list pydict) :
  filter (λ l, day_of l = d) (x :: locs)
  = if decide (d = day_of x)
    then x :: filter (λ l, day_of l = d) locs
    else filter (λ l, day_of l = d) locs.
Proof.
  rewrite filter_cons.
  destruct (decide (day_of x = d)), (decide (d = day_of x)); congruence.
Qed.

Lemma foldl_add_to_day (locs : list pydict) :
  ∀ acc : list (string * list pydict),
    NoDup acc.*1 →
    foldl (λ by_day loc, add_to_day (get_str loc "day" "Day 1") loc by_day)
      acc locs
    = ((λ dl, (dl.1, dl.2 ++ filter (λ l, day_of l = dl.1) locs)) <$> acc)
      ++ ((λ d, (d, filter (λ l, day_of l = d) locs))
            <$> filter (λ d, d ∉ acc.*1)
                  (first_occurrences (day_of <$> locs))).
Proof.
  induction locs as [|x locs IH]; intros acc Hnd.
  - cbn. rewrite app_nil_r. symmetry.
    transitivity (id <$> acc); [|apply list_fmap_id].
    apply list_fmap_ext. intros i [d ls] _. cbn. by rewrite app_nil_r.
  - cbn [foldl]. fold (day_of x). set (d0 := day_of x).
    cbn [fmap list_fmap first_occurrences]. fold (day_of x). fold d0.
    change (list_fmap _ _ day_of locs) with (day_of <$> locs).
    rewrite filter_cons.
    destruct (decide (d0 ∈ acc.*1)) as [Hin|Hnin].
    + rewrite add_to_day_present by done.
      assert (((λ dl : string * list pydict,
                  (dl.1, if decide (dl.1 = d0) then dl.2 ++ [x] else dl.2))
               <$> acc).*1 = acc.*1) as Hkeys.
      { rewrite <- list_fmap_compose. apply list_fmap_ext. by intros i [??] _. }
      rewrite IH by (by rewrite Hkeys).
      rewrite Hkeys, <- list_fmap_compose.
      rewrite decide_False by (intros Hn; by apply Hn).
      f_equal.
      * apply list_fmap_ext. intros i [d ls] _. cbn [fst snd compose].
        rewrite filter_day_cons. fold d0.
        destruct (decide (d = d0)) as [->|Hne].
        -- by rewrite <- app_assoc.
        -- done.
      * rewrite list_filter_filter.
        rewrite (filter_ext_in (λ d, (d ∉ acc.*1) ∧ d ≠ d0) (λ d, d ∉ acc.*1)).
        2:{ intros d _. split; [tauto|]. intros Hd. split; [done|].
            intros ->. done. }
        apply list_fmap_ext. intros i d Hi. f_equal.
        apply list_elem_of_lookup_2, list_elem_of_filter in Hi as [Hd _].
        rewrite filter_day_cons. fold d0.
        rewrite decide_False; [done|]. intros ->. done.
    + rewrite add_to_day_absent by done.
      rewrite IH.
      2:{ rewrite fmap_app. apply NoDup_app. split; [done|].
          split; [|apply NoDup_singleton].
          intros d Hd [->|[]%elem_of_nil]%elem_of_cons. done. }
      rewrite decide_True by done.
      rewrite fmap_app, fmap_cons, <- app_assoc. cbn [fmap list_fmap app fst snd].
      f_equal; [|f_equal].
      * apply list_fmap_ext. intros i [d ls] Hi. cbn [fst snd compose].
        f_equal. f_equal.
        rewrite filter_day_cons. fold d0.
        rewrite decide_False; [done|]. intros ->. apply Hnin.
        apply list_elem_of_fmap. exists (d0, ls). split; [done|].
        by eapply list_elem_of_lookup_2.
      * f_equal. rewrite filter_day_cons. fold d0.
        by rewrite decide_True.
      * rewrite list_filter_filter.
        rewrite (filter_ext_in (λ d, d ∉ (acc ++ [(d0, [x])]).*1)
                   (λ d, (d ∉ acc.*1) ∧ d ≠ d0)).
        2:{ intros d _. rewrite fmap_app, not_elem_of_app. cbn.
            rewrite list_elem_of_singleton. done. }
        apply list_fmap_ext. intros i d Hi. f_equal.
        apply list_elem_of_lookup_2, list_elem_of_filter in Hi as [[_ Hd] _].
        rewrite filter_day_cons. fold d0.
        by rewrite decide_False.
Qed.

Lemma group_by_day_closed (locations : list pydict) :
  group_by_day locations
  = (λ d, (d, filter (λ l, day_of l = d) locations))
      <$> first_occurrences (day_of <$> locations).
Proof.
  unfold group_by_day. rewrite foldl_add_to_day by constructor.
  cbn [fmap list_fmap app]. f_equal. apply filter_all.
  apply Forall_forall. intros d _. apply not_elem_of_nil.
Qed.

Lemma group_by_day_keys (locations : list pydict) :
  (group_by_day locations).*1 = first_occurrences (day_of <$> locations).
Proof.
  rewrite group_by_day_closed, <- list_fmap_compose.
  transitivity (id <$> first_occurrences (day_of <$> locations));
    [|apply list_fmap_id].
  by apply list_fmap_ext.
Qed.

Lemma concat_filter_keys {A K} `{EqDecision K} (f : A → K) (l : list A)
    (ks : list K) :
  NoDup ks →
  concat ((λ k, filter (λ x, f x = k) l) <$> ks)
  ≡ₚ filter (λ x, f x ∈ ks) l.
Proof.
  induction 1 as [|k ks Hk Hnd IH].
  - cbn. rewrite filter_none; [done|].
    apply Forall_forall. intros x _. apply not_elem_of_nil.
  - cbn [fmap list_fmap concat]. rewrite IH.
    rewrite filter_disjoint_app.
    + erewrite filter_ext_in; [done|]. intros x _. cbn.
      by rewrite elem_of_cons.
    + intros x <- Hin. done.
Qed.

(** X1. [calculate_route] groups the locations by their day, a location
    without a day going to "Day 1": the days come in the order in which
    they first occur in the list, each once; the group of a day holds
    the locations of that day, all of them, in the order of the list; no
    group is empty; and the groups together are a rearrangement of the
    list, so that no location is lost or counted twice. *)
Theorem group_by_day_partition (locations : list pydict) :
  group_by_day locations
  = (λ d, (d, filter (λ l, day_of l = d) locations))
      <$> first_occurrences (day_of <$> locations) ∧
  NoDup (group_by_day locations).*1 ∧
  Forall (λ dl, dl.2 ≠ []) (group_by_day locations) ∧
  concat (group_by_day locations).*2 ≡ₚ locations.
Proof.
  split; [apply group_by_day_closed|]. split; [|split].
  - rewrite group_by_day_keys. apply NoDup_first_occurrences.
  - rewrite group_by_day_closed. apply Forall_fmap, Forall_forall.
    intros d Hd. cbn.
    apply elem_of_first_occurrences, list_elem_of_fmap in Hd
      as (l & -> & Hl).
    intros Hnil.
    assert (l ∈ filter (λ l', day_of l' = day_of l) locations) as Hin
      by (by apply list_elem_of_filter).
    rewrite Hnil in Hin. by apply elem_of_nil in Hin.
  - rewrite group_by_day_closed, <- list_fmap_compose.
    change (snd ∘ (λ d, (d, filter (λ l, day_of l = d) locations)))
      with (λ d, filter (λ l, day_of l = d) locations).
    rewrite concat_filter_keys by apply NoDup_first_occurrences.
    rewrite filter_all; [done|].
    apply Forall_forall. intros l Hl.
    apply elem_of_first_occurrences, list_elem_of_fmap. eauto.
Qed.

(** ** The extracted locations *)

Lemma hotel_locations_kind (files : list data_file) (hotel : pydict) :
  Forall (λ l, type_of l = Some "hotel"%string ∧ strs l !! "day" = None ∧
               nonzero_lat_lng l ∧ plain_entry l)
    (hotel_locations files hotel).
Proof.
  unfold hotel_locations.
  destruct (if decide _ then _ else _) as [lat lng].
  case_decide as Hnz; [|done]. destruct Hnz as [Hlat Hlng].
  constructor; [|done].
  split; [done|]. split; [done|]. split; [|done].
  exists lat, lng. split; [|split; [|done]]; cbn.
  - by rewrite lookup_insert_eq.
  - rewrite lookup_insert_ne by done. by rewrite lookup_insert_eq.
Qed.

Lemma attraction_locations_kind (day_key time_slot : string)
    (attraction : pydict) :
  Forall (λ l, type_of l = Some "attraction"%string ∧
               strs l !! "day" = Some day_key ∧
               strs l !! "time" = Some time_slot ∧
               nonzero_lat_lng l ∧ plain_entry l)
    (attraction_locations day_key time_slot attraction).
Proof.
  unfold attraction_locations.
  case_decide as Hnz; [|done]. destruct Hnz as [Hlat Hlng].
  constructor; [|done].
  split; [done|]. split; [done|]. split; [done|]. split; [|done].
  unfold truthy_num in Hlat, Hlng. unfold get_num.
  destruct (nums attraction !! "latitude") as [lat|]; [|done].
  destruct (nums attraction !! "longitude") as [lng|]; [|done].
  exists lat, lng. split; [|split; [|done]]; cbn.
  - by rewrite lookup_insert_eq.
  - rewrite lookup_insert_ne by done. by rewrite lookup_insert_eq.
Qed.

Lemma restaurant_locations_kind (day_key meal_type : string)
    (restaurant : pydict) :
  Forall (λ l, type_of l = Some "restaurant"%string ∧
               strs l !! "day" = Some day_key ∧ plain_entry l)
    (restaurant_locations day_key meal_type restaurant).
Proof.
  unfold restaurant_locations. case_decide; [|done].
  constructor; [|done]. done.
Qed.

Lemma length_bind_at_most {A B} (f : A → list B) (l : list A) :
  (∀ x, length (f x) ≤ 1) → length (l ≫= f) ≤ length l.
Proof.
  intros Hf. induction l as [|x l IH]; [done|].
  rewrite bind_cons, length_app. cbn [length]. specialize (Hf x). lia.
Qed.

Lemma extract_locations_plain (files : list data_file) (p : plan) :
  Forall plain_entry (extract_locations files p).
Proof.
  unfold extract_locations. rewrite !Forall_app. split; [|split].
  - apply Forall_bind, Forall_forall. intros h _. cbn.
    eapply Forall_impl; [apply hotel_locations_kind|].
    by intros l (_ & _ & _ & Hp).
  - apply Forall_bind, Forall_forall. intros [day slots] _. cbn.
    rewrite !Forall_app. repeat split; [| |done];
      apply Forall_bind, Forall_forall; intros a _; cbn;
      (eapply Forall_impl; [apply attraction_locations_kind|]);
      by intros l (_ & _ & _ & _ & Hp).
  - apply Forall_bind, Forall_forall. intros [day meals] _. cbn.
    apply Forall_bind, Forall_forall. intros [meal rs] _. cbn.
    apply Forall_bind, Forall_forall. intros r _. cbn.
    eapply Forall_impl; [apply restaurant_locations_kind|].
    by intros l (_ & _ & Hp).
Qed.

(** X2. The list [extract_locations] builds is the hotel entries, then
    the attraction entries, then the restaurant entries.  A hotel entry
    carries no day (so it is grouped under "Day 1") and both its
    coordinates differ from 0; there is at most one per hotel of the plan.
    An attraction entry carries a day of the plan's attractions, the time
    slot "morning" or "evening" (no other slot of the plan is read), and
    both its coordinates differ from 0.  A restaurant entry carries a day of
    the plan's restaurants; nothing is said of its coordinates.  No entry
    has a [latitude], [longitude] or [distance_to_next] field. *)
Theorem extract_locations_kinds (files : list data_file) (p : plan) :
  ∃ hs ats rs,
    extract_locations files p = hs ++ ats ++ rs ∧
    length hs ≤ length (hotels p) ∧
    Forall (λ l, type_of l = Some "hotel"%string ∧
                 day_of l = "Day 1"%string ∧ nonzero_lat_lng l) hs ∧
    Forall (λ l, type_of l = Some "attraction"%string ∧
                 (∃ d, d ∈ (attractions p).*1 ∧ strs l !! "day" = Some d) ∧
                 (∃ t, t ∈ ["morning"; "evening"]%string ∧
                       strs l !! "time" = Some t) ∧
                 nonzero_lat_lng l) ats ∧
    Forall (λ l, type_of l = Some "restaurant"%string ∧
                 (∃ d, d ∈ (restaurants p).*1 ∧ strs l !! "day" = Some d))
      rs ∧
    Forall plain_entry (hs ++ ats ++ rs).
Proof.
  eexists _, _, _. split; [reflexivity|].
  split; [|split; [|split; [|split]]].
  - apply length_bind_at_most. intros hotel. unfold hotel_locations.
    destruct (if decide _ then _ else _) as [lat lng].
    case_decide; cbn; lia.
  - apply Forall_bind, Forall_forall. intros h _. cbn.
    eapply Forall_impl; [apply hotel_locations_kind|].
    intros l (Ht & Hd & Hnz & _). split; [done|]. split; [|done].
    unfold day_of, get_str. by rewrite Hd.
  - apply Forall_bind, Forall_forall. intros [day slots] Hday. cbn.
    assert (day ∈ (attractions p).*1) as Hin.
    { apply list_elem_of_fmap. by exists (day, slots). }
    rewrite !Forall_app. repeat split; [| |done];
      apply Forall_bind, Forall_forall; intros a _; cbn;
      (eapply Forall_impl; [apply attraction_locations_kind|]);
      intros l (Ht & Hd & Hs & Hnz & _);
      (split; [done|]); (split; [eauto|]); (split; [|done]);
      eexists; (split; [|exact Hs]); repeat first [ by left | right ].
  - apply Forall_bind, Forall_forall. intros [day meals] Hday. cbn.
    assert (day ∈ (restaurants p).*1) as Hin.
    { apply list_elem_of_fmap. by exists (day, meals). }
    apply Forall_bind, Forall_forall. intros [meal rs] _. cbn.
    apply Forall_bind, Forall_forall. intros r _. cbn.
    eapply Forall_impl; [apply restaurant_locations_kind|].
    intros l (Ht & Hd & _); eauto.
  - apply extract_locations_plain.
Qed.

(** X18. When a hotel of the plan gets a location entry, and with which
    coordinate.  The entry has the hotel's own coordinate when neither
    its latitude nor its longitude is 0 (a missing one counts as 0), and
    then the data files are not consulted; it has the coordinate found by
    [get_hotel_coordinates] when both are 0 and neither number found is
    0.  In every other case - one coordinate of the two is 0, or nothing
    usable is found - the hotel gets no entry. *)
Theorem hotel_locations_when (files : list data_file) (hotel : pydict)
    (x y : Qc) :
  (∃ l, hotel_locations files hotel = [l] ∧
        nums l !! "lat" = Some x ∧ nums l !! "lng" = Some y) ↔
  x ≠ 0%Qc ∧ y ≠ 0%Qc ∧
  ((get_num hotel "latitude" 0%Qc = x ∧ get_num hotel "longitude" 0%Qc = y) ∨
   (get_num hotel "latitude" 0%Qc = 0%Qc ∧
    get_num hotel "longitude" 0%Qc = 0%Qc ∧
    get_hotel_coordinates files (get_str hotel "name" "")
      (get_str hotel "address" "") = Some (x, y))).
Proof.
  unfold hotel_locations.
  set (lat := get_num hotel "latitude" 0%Qc).
  set (lng := get_num hotel "longitude" 0%Qc).
  set (found := get_hotel_coordinates files _ _).
  assert (∀ a b : Qc,
            (∃ l, (if decide (a ≠ 0%Qc ∧ b ≠ 0%Qc)
                   then [mk_dict [("lat"%string, a); ("lng"%string, b);
                                  ("price"%string, get_num hotel "price" 0%Qc);
                                  ("rating"%string, get_num hotel "rating" 0%Qc)]
                                 [("name"%string, get_str hotel "name" "Hotel");
                                  ("type"%string, "hotel"%string);
                                  ("address"%string, get_str hotel "address" "")]]
                   else []) = [l] ∧
                  nums l !! "lat" = Some x ∧ nums l !! "lng" = Some y)
            ↔ a ≠ 0%Qc ∧ b ≠ 0%Qc ∧ a = x ∧ b = y) as Hentry.
  { intros a b. case_decide as Hnz.
    - split.
      + intros (l & [= <-] & Hx & Hy). cbn in Hx, Hy.
        rewrite lookup_insert_eq in Hx.
        rewrite lookup_insert_ne, lookup_insert_eq in Hy by done.
        destruct Hnz. by simplify_eq.
      + intros (_ & _ & -> & ->). eexists. split; [done|]. cbn.
        rewrite lookup_insert_eq.
        by rewrite lookup_insert_ne, lookup_insert_eq by done.
    - split; [by intros (l & [=] & _) | tauto]. }
  destruct (decide (lat = 0%Qc ∧ lng = 0%Qc)) as [[Hlat Hlng]|Hown].
  - destruct found as [[fx fy]|] eqn:Hfound.
    + rewrite Hentry. split.
      * intros (? & ? & -> & ->). split; [done|]. split; [done|]. by right.
      * intros (Hx & Hy & [[Hl _]|(_ & _ & [= -> ->])]); [congruence | done].
    + rewrite Hentry. split.
      * intros (? & _). congruence.
      * intros (Hx & Hy & [[Hl _]|(_ & _ & [=])]). congruence.
  - rewrite Hentry. split.
    + intros (? & ? & <- & <-). split; [done|]. split; [done|]. by left.
    + intros (Hx & Hy & [[<- <-]|(Hl & Hg & _)]); [done|].
      destruct Hown. done.
Qed.

(** ** The routes of the days *)

Lemma loc_for_opt_routed (l d : pydict) :
  plain_entry l →
  loc_for_opt l = Ret d →
  strs d = strs l ∧
  nums d !! "latitude" = nums l !! "lat" ∧
  nums d !! "longitude" = nums l !! "lng" ∧
  ∀ k, k ∉ ["latitude"; "longitude"; "distance_to_next"]%string →
       nums d !! k = nums l !! k.
Proof.
  intros (Hlat & Hlng & _) Hd. unfold loc_for_opt, item_num in Hd.
  destruct (nums l !! "lat") as [lat|] eqn:Elat; [|done].
  destruct (nums l !! "lng") as [lng|] eqn:Elng; [|done].
  cbn in Hd. unfold mret, res_ret in Hd. injection Hd as <-. cbn [nums strs].
  split; [done|]. split; [|split].
  - rewrite lookup_union_r by done. cbn. by rewrite lookup_insert_eq.
  - rewrite lookup_union_r by done. cbn.
    rewrite lookup_insert_ne by done. by rewrite lookup_insert_eq.
  - intros k Hk. apply lookup_union_l. cbn.
    rewrite !not_elem_of_cons in Hk. destruct Hk as (? & ? & _).
    by rewrite !lookup_insert_ne by done.
Qed.

Section AssemblyProps.

Variable geodesic : coord → coord → res Qc.
Hypothesis Hlib : returns_on_valid geodesic.
Abbreviation km := (km_of geodesic).

Lemma route_of_day_venues (day_locations : list pydict) :
  Forall has_lat_lng day_locations →
  Forall valid_location day_locations →
  Forall plain_entry day_locations →
  ∃ r, route_of_day geodesic day_locations = Ret r ∧
       routes_day day_locations r.
Proof.
  intros Hkeys Hvalid Hplain. unfold route_of_day, routes_day.
  destruct (decide (1 < length day_locations)) as [Hlen|Hlen]; [|eauto].
  destruct (mapM_res_total loc_for_opt day_locations) as (ds & Hds & Hall).
  { eapply Forall_impl; [exact Hkeys|]. apply loc_for_opt_returns. }
  assert (Forall valid_venue ds) as Hds_valid.
  { clear Hds Hlen Hkeys Hplain.
    induction Hall as [|l d ls ds Hl Hall IH]; [done|].
    apply Forall_cons in Hvalid as [Hv Hvalid].
    constructor; [|by apply IH].
    unfold valid_location in Hv. by rewrite Hl in Hv. }
  pose proof (Forall2_length _ _ _ Hall) as Hlen2.
  rewrite Hds. cbn [mbind res_bind].
  set (h0 := fresh_heap ds). set (refs := seq 0 (length ds)).
  destruct (optimize_route_spec geodesic Hlib h0 refs None)
    as (route & h' & Hnn & Hrperm & Hrun & Hperm & Hsame & _ & Hdtn).
  { by apply fresh_heap_valid. }
  { done. }
  { subst refs. destruct ds as [|d ds]; [cbn in Hlen2; lia | done]. }
  cbn zeta in *. set (optimized := (λ i, refs !!! i) <$> route) in *.
  specialize (Hdtn (NoDup_seq _ _)).
  rewrite Hrun. cbn [mbind res_bind].
  eexists. split; [done|]. cbn [route_locations].
  exists ((λ a, default (PyDict ∅ ∅) (day_locations !! a)) <$> optimized).
  split; [|split].
  - rewrite Hperm. subst refs. rewrite <- Hlen2.
    assert ((λ a, default (PyDict ∅ ∅) (day_locations !! a))
              <$> seq 0 (length day_locations) = day_locations) as ->; [|done].
    apply list_eq. intros i. rewrite list_lookup_fmap.
    destruct (decide (i < length day_locations)) as [Hi|Hi].
    + rewrite lookup_seq_lt by done. cbn.
      destruct (lookup_lt_is_Some_2 day_locations i Hi) as [x Hx].
      by rewrite Hx.
    + rewrite lookup_seq_ge by lia. cbn. symmetry.
      apply lookup_ge_None. lia.
  - destruct (nearest_neighbor_route_run geodesic Hlib
                ((λ a, coords_of (h0 a)) <$> refs) None)
      as (first & tail & Hrun' & _ & Hfirst & _).
    { apply Forall_fmap. eapply Forall_impl; [by apply fresh_heap_valid|].
      done. }
    { done. }
    { subst refs. rewrite length_fmap, length_seq. lia. }
    cbn in Hfirst. subst first.
    rewrite Hnn in Hrun'. injection Hrun' as ->.
    subst optimized refs. cbn [fmap list_fmap head].
    destruct day_locations as [|l0 rest]; [cbn in Hlen; lia|].
    destruct ds as [|d0 ds']; [cbn in Hlen2; lia|].
    done.
  - apply Forall2_fmap, Forall_Forall2_diag, Forall_forall.
    intros a Ha.
    destruct (list_elem_of_lookup_1 _ _ Ha) as [i Hi].
    rewrite Hperm in Ha. subst refs. apply elem_of_seq in Ha.
    destruct (lookup_lt_is_Some_2 ds a) as [d Hd]; [lia|].
    destruct (lookup_lt_is_Some_2 day_locations a) as [l Hl]; [lia|].
    pose proof (Forall2_lookup_lr _ _ _ _ _ _ Hall Hl Hd) as Hld.
    rewrite Hl. cbn [default from_option id].
    destruct (loc_for_opt_routed l d) as (Hs & Hlat & Hlng & Hother);
      [by eapply Forall_lookup_1 | done |].
    destruct (Hsame a) as [Hs' Hn'].
    assert (h0 a = d) as Hh0 by (subst h0; unfold fresh_heap; by rewrite Hd).
    rewrite Hh0 in Hs', Hn'.
    split; [congruence|]. split; [|split; [|split]].
    + by rewrite Hn'.
    + by rewrite Hn'.
    + rewrite (Hdtn i a Hi). eauto.
    + intros k Hk. rewrite Hn'; [by apply Hother|].
      rewrite !not_elem_of_cons in Hk. by destruct Hk as (_ & _ & ? & _).
Qed.

Lemma routes_of_days_venues (groups : list (string * list pydict)) :
  Forall (λ dl, Forall (λ l, has_lat_lng l ∧ valid_location l
                             ∧ plain_entry l) dl.2) groups →
  ∃ routes,
    mapM (λ '(day, day_locations),
            r ← route_of_day geodesic day_locations; mret (day, r)) groups
    = Ret routes ∧
    Forall2 (λ dl dr, dr.1 = dl.1 ∧ routes_day dl.2 dr.2) groups routes.
Proof.
  induction 1 as [|[day dl] groups Hdl Hgroups (routes & IH & Hall)].
  - by exists [].
  - cbn in Hdl. apply Forall_and in Hdl as [Hkeys Hdl].
    apply Forall_and in Hdl as [Hvalid Hplain].
    destruct (route_of_day_venues dl Hkeys Hvalid Hplain) as (r & Hr & Hday).
    exists ((day, r) :: routes). cbn [mapM]. rewrite Hr.
    cbn [mbind res_bind]. rewrite IH. split; [done|].
    by constructor.
Qed.

Lemma calculate_route_days_spec (files : list data_file) (p : plan) :
  Forall valid_location (extract_locations files p) →
  2 ≤ length (extract_locations files p) →
  ∃ routes,
    calculate_route geodesic files p = Ret (Routes routes) ∧
    Forall2 (λ dl dr, dr.1 = dl.1 ∧ routes_day dl.2 dr.2)
      (group_by_day (extract_locations files p)) routes.
Proof.
  intros Hvalid Hlen. unfold calculate_route. cbn zeta.
  rewrite decide_False by lia.
  destruct (routes_of_days_venues (group_by_day (extract_locations files p)))
    as (routes & Hrun & Hall).
  { apply group_by_day_Forall. rewrite !Forall_and.
    split; [apply extract_locations_keys|].
    split; [done | apply extract_locations_plain]. }
  exists routes. by rewrite Hrun.
Qed.

(** X3. When the plan has two locatable venues or more, with coordinates
    in range, [calculate_route] returns one route per day of the grouping,
    in the order of the days.  The route of a day of two venues or more
    is a rearrangement of the locations of the day that starts with the
    first of them, every location copied with [latitude], [longitude] and
    [distance_to_next] added and nothing else changed; the route of a day
    of one venue is the list of that one location as it was extracted,
    with none of the three fields, and a total of 0. *)
Theorem calculate_route_days (files : list data_file) (p : plan) :
  Forall valid_location (extract_locations files p) →
  2 ≤ length (extract_locations files p) →
  ∃ routes,
    calculate_route geodesic files p = Ret (Routes routes) ∧
    routes.*1 = first_occurrences (day_of <$> extract_locations files p) ∧
    Forall2 (λ dl dr, dr.1 = dl.1 ∧ routes_day dl.2 dr.2)
      (group_by_day (extract_locations files p)) routes.
Proof.
  intros Hvalid Hlen.
  destruct (calculate_route_days_spec files p Hvalid Hlen)
    as (routes & Hrun & Hall).
  exists routes. split; [done|]. split; [|done].
  rewrite <- group_by_day_keys.
  clear Hrun. induction Hall as [|dl dr gs rs [Hk _] Hall IH]; [done|].
  cbn. by rewrite Hk, IH.
Qed.

(** X4. When the first hotel of the plan that has a coordinate (its own,
    or one found in the data files) yields the entry [l], and the plan has
    two locatable venues or more, the first route [calculate_route]
    returns is that of "Day 1" and it starts at that hotel: its first
    venue is [l] itself when the day has no other venue, and [l] with the
    fields of the optimiser added otherwise. *)
Theorem day_one_starts_at_hotel (files : list data_file) (p : plan)
    (l : pydict) (more : list pydict) :
  hotels p ≫= hotel_locations files = l :: more →
  Forall valid_location (extract_locations files p) →
  2 ≤ length (extract_locations files p) →
  ∃ r routes v vs,
    calculate_route geodesic files p
    = Ret (Routes (("Day 1"%string, r) :: routes)) ∧
    route_locations r = v :: vs ∧
    (v = l ∨ routed_from l v).
Proof.
  intros Hhotel Hvalid Hlen.
  destruct (calculate_route_days_spec files p Hvalid Hlen)
    as (routes & Hrun & Hall).
  assert (day_of l = "Day 1"%string) as Hday.
  { assert (l ∈ hotels p ≫= hotel_locations files) as Hin
      by (rewrite Hhotel; left).
    apply list_elem_of_bind in Hin as (h & Hin & _).
    pose proof (hotel_locations_kind files h) as Hkind.
    eapply Forall_forall in Hkind as (_ & Hd & _); [|exact Hin].
    unfold day_of, get_str. by rewrite Hd. }
  assert (∃ rest, extract_locations files p = l :: rest) as [rest Hlocs].
  { unfold extract_locations. rewrite Hhotel. cbn. eauto. }
  rewrite Hlocs, group_by_day_closed in Hall.
  cbn [fmap list_fmap first_occurrences] in Hall.
  rewrite Hday, filter_day_cons, Hday in Hall.
  rewrite decide_True in Hall by done.
  apply Forall2_cons_inv_l in Hall as ([day r] & routes' & [Hk Hr] & _ & ->).
  cbn in Hk, Hr. subst day.
  unfold routes_day in Hr.
  destruct (decide (1 < length (l :: filter (λ l', day_of l' = "Day 1"%string) rest)))
    as [Hlong|Hshort].
  - destruct Hr as (order & _ & Hhead & Hrouted).
    destruct order as [|o order]; [done|]. cbn in Hhead. simplify_eq.
    apply Forall2_cons_inv_l in Hrouted as (v & vs & Hv & _ & Heq).
    exists r, routes', v, vs. split; [done|]. split; [done|]. by right.
  - subst r. eexists _, routes', l, _. split; [done|]. split; [done|].
    by left.
Qed.

End AssemblyProps.

Section AssemblyWithoutLibrary.

(** Any library, also one that raises. *)
Variable geodesic : coord → coord → res Qc.

Lemma routes_of_single_days (groups : list (string * list pydict)) :
  Forall (λ dl, length dl.2 ≤ 1) groups →
  mapM (λ '(day, day_locations),
          r ← route_of_day geodesic day_locations; mret (day, r)) groups
  = Ret ((λ dl, (dl.1, DayRoute dl.2 0%Qc)) <$> groups).
Proof.
  induction 1 as [|[day dl] groups Hdl Hgroups IH]; [done|].
  cbn in Hdl.
  assert (route_of_day geodesic dl = Ret (DayRoute dl 0%Qc)) as Hr.
  { unfold route_of_day. by rewrite decide_False by lia. }
  cbn [mapM]. rewrite Hr. cbn [mbind res_bind]. by rewrite IH.
Qed.

(** X5. [calculate_route] asks the library for a distance only on a day
    of two venues or more.  With fewer than two locations in all it
    returns the bare empty list; with no day of more than one venue it
    returns, for every day, the venue as it was extracted and a total of
    0 - whatever the library would do, and whatever the coordinates
    are. *)
Theorem calculate_route_single_venue_days (files : list data_file)
    (p : plan) :
  Forall (λ dl, length dl.2 ≤ 1)
    (group_by_day (extract_locations files p)) →
  calculate_route geodesic files p
  = Ret (if decide (length (extract_locations files p) < 2) then NoRoutes
         else Routes ((λ dl, (dl.1, DayRoute dl.2 0%Qc))
                        <$> group_by_day (extract_locations files p))).
Proof.
  intros Hsingle. unfold calculate_route. cbn zeta.
  case_decide; [done|]. by rewrite routes_of_single_days.
Qed.

End AssemblyWithoutLibrary.

(** ** The order of the clusters *)

Section ClusterOrder.

Variable geodesic : coord → coord → res Qc.
Hypothesis Hlib : returns_on_valid geodesic.
Abbreviation km := (km_of geodesic).

Lemma cluster_loop_step (max_distance_km : Qc) (fuel : nat)
    (seed : pydict) (rest : list pydict) (clusters : list (list pydict)) :
  Forall valid_venue (seed :: rest) →
  length rest ≤ fuel →
  cluster_loop geodesic (S fuel) max_distance_km (seed :: rest) clusters
  = cluster_loop geodesic fuel max_distance_km
      (filter (λ v, ¬ (km (coords_of seed) (coords_of v) ≤ max_distance_km)%Qc)
         rest)
      (clusters
       ++ [seed :: filter (λ v, (km (coords_of seed) (coords_of v)
                                 ≤ max_distance_km)%Qc) rest]).
Proof.
  intros [Hseed Hrest]%Forall_cons Hfuel.
  cbn [cluster_loop py_pop lookup list_lookup mbind res_bind index delete
       list_delete].
  rewrite (scan_loop_filter geodesic Hlib) by (done || cbn; lia).
  cbn [mbind res_bind app]. rewrite take_0, drop_0. done.
Qed.

Lemma cluster_loop_order (max_distance_km : Qc) :
  ∀ fuel unassigned clusters,
    Forall valid_venue unassigned →
    length unassigned ≤ fuel →
    ∃ new,
      cluster_loop geodesic fuel max_distance_km unassigned clusters
      = Ret (clusters ++ new) ∧
      Forall (λ c, c `sublist_of` unassigned) new ∧
      omap head new `sublist_of` unassigned ∧
      length new ≤ length unassigned.
Proof.
  induction fuel as [|fuel IH]; intros unassigned clusters Hvalid Hfuel.
  - destruct unassigned; [|cbn in Hfuel; lia].
    exists []. cbn. by rewrite app_nil_r.
  - destruct unassigned as [|seed rest].
    { exists []. cbn. by rewrite app_nil_r. }
    cbn in Hfuel. rewrite cluster_loop_step by (done || lia).
    set (P := λ v, (km (coords_of seed) (coords_of v) ≤ max_distance_km)%Qc).
    pose proof (sublist_filter (λ v, ¬ P v) rest) as Hsub.
    pose proof (length_filter (λ v, ¬ P v) rest) as Hlen.
    destruct (IH (filter (λ v, ¬ P v) rest) (clusters ++ [seed :: filter P rest]))
      as (new & Hrun & Hsubs & Hseeds & Hcount).
    { apply Forall_cons in Hvalid as [_ Hrest].
      apply Forall_forall. intros v Hv.
      apply list_elem_of_filter in Hv as [_ Hv].
      by eapply Forall_forall in Hrest. }
    { lia. }
    exists ((seed :: filter P rest) :: new). split; [|split; [|split]].
    + by rewrite <- app_assoc in Hrun.
    + constructor.
      * apply sublist_skip, sublist_filter.
      * eapply Forall_impl; [exact Hsubs|]. intros c Hc. cbn in Hc.
        apply sublist_cons. by etransitivity.
    + cbn. apply sublist_skip. by etransitivity.
    + cbn. lia.
Qed.

(** X8. The clusters of [cluster_by_proximity] keep the order of the
    input: the venues of a cluster come in the order they have in the
    input list, and so do the seeds of the clusters, the first cluster
    being seeded by the first venue.  There are at most as many clusters
    as venues. *)
Theorem cluster_by_proximity_order (locations : list pydict)
    (max_distance_km : Qc) :
  Forall valid_venue locations →
  ∃ clusters,
    cluster_by_proximity geodesic locations max_distance_km = Ret clusters ∧
    Forall (λ c, c `sublist_of` locations) clusters ∧
    omap head clusters `sublist_of` locations ∧
    head (omap head clusters) = head locations ∧
    length clusters ≤ length locations.
Proof.
  intros Hvalid. destruct locations as [|seed rest].
  { exists []. by cbn. }
  destruct (cluster_loop_order max_distance_km (length (seed :: rest))
              (seed :: rest) []) as (new & Hrun & Hsubs & Hseeds & Hcount);
    [done | done |].
  exists new. split; [exact Hrun|]. split; [done|]. split; [done|].
  split; [|done].
  cbn [length] in Hrun. rewrite cluster_loop_step in Hrun by done.
  destruct (cluster_loop_order max_distance_km (length rest)
              (filter (λ v, ¬ (km (coords_of seed) (coords_of v)
                               ≤ max_distance_km)%Qc) rest)
              ([] ++ [seed :: filter (λ v, (km (coords_of seed) (coords_of v)
                                            ≤ max_distance_km)%Qc) rest]))
    as (new' & Hrun' & _).
  { apply Forall_cons in Hvalid as [_ Hrest].
    apply Forall_forall. intros v Hv.
    apply list_elem_of_filter in Hv as [_ Hv].
    by eapply Forall_forall in Hrest. }
  { apply length_filter. }
  pose proof (eq_trans (eq_sym Hrun') Hrun) as Heq. injection Heq as <-.
  done.
Qed.

Lemma filter_all_inv {A} (P : A → Prop) `{!∀ x, Decision (P x)}
    (l : list A) :
  filter P l = l → Forall P l.
Proof.
  intros Heq. apply Forall_forall. intros x Hx. rewrite <- Heq in Hx.
  by apply list_elem_of_filter in Hx as [HP _].
Qed.

Lemma filter_none_inv {A} (P : A → Prop) `{!∀ x, Decision (P x)}
    (l : list A) :
  filter P l = [] → Forall (λ x, ¬ P x) l.
Proof.
  intros Heq. apply Forall_forall. intros x Hx HP.
  assert (x ∈ filter P l) as Hin by (by apply list_elem_of_filter).
  rewrite Heq in Hin. by apply elem_of_nil in Hin.
Qed.

Lemma cluster_loop_singletons (max_distance_km : Qc) :
  ∀ fuel unassigned clusters,
    Forall valid_venue unassigned →
    length unassigned ≤ fuel →
    cluster_loop geodesic fuel max_distance_km unassigned clusters
    = Ret (clusters ++ ((λ v, [v]) <$> unassigned)) ↔
    StronglySorted (λ v w, ¬ within_radius km max_distance_km v w) unassigned.
Proof.
  induction fuel as [|fuel IH]; intros unassigned clusters Hvalid Hfuel.
  - destruct unassigned; [|cbn in Hfuel; lia].
    cbn. rewrite app_nil_r. split; [constructor | done].
  - destruct unassigned as [|seed rest].
    { cbn. rewrite app_nil_r. split; [constructor | done]. }
    cbn in Hfuel. rewrite cluster_loop_step by (done || lia).
    set (P := λ v, (km (coords_of seed) (coords_of v) ≤ max_distance_km)%Qc).
    apply Forall_cons in Hvalid as [Hseed Hrest].
    assert (Forall valid_venue (filter (λ v, ¬ P v) rest)) as Hrest'.
    { apply Forall_forall. intros v Hv.
      apply list_elem_of_filter in Hv as [_ Hv].
      by eapply Forall_forall in Hrest. }
    pose proof (length_filter (λ v, ¬ P v) rest) as Hlen.
    split.
    + intros Hrun.
      destruct (cluster_loop_partition geodesic Hlib max_distance_km fuel
                  (filter (λ v, ¬ P v) rest)
                  (clusters ++ [seed :: filter P rest]))
        as (new & Hrun' & Hperm & _); [done | lia |].
      pose proof (eq_trans (eq_sym Hrun') Hrun) as Heq.
      injection Heq as Heq. clear Hrun. rename Heq into Hrun.
      rewrite <- app_assoc in Hrun. apply app_inv_head in Hrun.
      cbn in Hrun. injection Hrun as Hnone Hnew.
      apply filter_none_inv in Hnone.
      assert (filter (λ v, ¬ P v) rest = rest) as Hall.
      { apply filter_all. done. }
      constructor; [|done].
      apply (IH rest (clusters ++ [[seed]])); [done | lia |].
      assert (filter P rest = []) as Hnil by (by apply filter_none).
      rewrite Hall, Hnil in Hrun'. by rewrite Hrun', Hnew.
    + intros [Hsorted Hfar]%StronglySorted_inv.
      rewrite (filter_all (λ v, ¬ P v)) by done.
      rewrite (filter_none P).
      2:{ done. }
      rewrite (proj2 (IH rest (clusters ++ [[seed]]) Hrest ltac:(lia)) Hsorted).
      by rewrite <- app_assoc.
Qed.

(** X9. The two extremes of [cluster_by_proximity], on venues with
    coordinates in range.  The result is one cluster, the input list
    itself, exactly when every venue is within the radius of the first;
    it is one cluster per venue, in input order, exactly when no venue is
    within the radius of a venue before it in the list. *)
Theorem cluster_by_proximity_extremes (seed : pydict) (rest : list pydict)
    (max_distance_km : Qc) :
  Forall valid_venue (seed :: rest) →
  (cluster_by_proximity geodesic (seed :: rest) max_distance_km
   = Ret [seed :: rest] ↔
   Forall (within_radius km max_distance_km seed) rest) ∧
  (cluster_by_proximity geodesic (seed :: rest) max_distance_km
   = Ret ((λ v, [v]) <$> seed :: rest) ↔
   StronglySorted (λ v w, ¬ within_radius km max_distance_km v w)
     (seed :: rest)).
Proof.
  intros Hvalid. split.
  - unfold cluster_by_proximity. cbn [length].
    rewrite cluster_loop_step by done. cbn [app].
    set (P := λ v, (km (coords_of seed) (coords_of v) ≤ max_distance_km)%Qc).
    destruct (cluster_loop_partition geodesic Hlib max_distance_km
                (length rest) (filter (λ v, ¬ P v) rest)
                [seed :: filter P rest])
      as (new & Hrun & Hperm & Hball & _).
    { apply Forall_cons in Hvalid as [_ Hrest].
      apply Forall_forall. intros v Hv.
      apply list_elem_of_filter in Hv as [_ Hv].
      by eapply Forall_forall in Hrest. }
    { apply length_filter. }
    split.
    + intros Hone. pose proof (eq_trans (eq_sym Hrun) Hone) as Heq.
      injection Heq as Hfilter Hnew. by apply filter_all_inv in Hfilter.
    + intros Hall. etransitivity; [exact Hrun|].
      rewrite (filter_all P) by done.
      rewrite (filter_none (λ v, ¬ P v)) in Hperm.
      2:{ eapply Forall_impl; [exact Hall|]. intros v Hv Hn. by apply Hn. }
      apply Permutation_nil_r in Hperm.
      destruct new as [|c new]; [done|].
      cbn in Hperm. apply app_eq_nil in Hperm as [-> _].
      by apply Forall_cons in Hball as [(s & ms & [=] & _) _].
  - apply (cluster_loop_singletons max_distance_km
             (length (seed :: rest)) (seed :: rest) []); done.
Qed.

End ClusterOrder.

(** ** The distances shown against the total *)

Lemma py_round_two_decimals (x : Qc) :
  (x - dec 1 200 ≤ py_round x 2 ∧ py_round x 2 ≤ x + dec 1 200)%Qc.
Proof.
  unfold py_round, Qcle, Qcminus, Qcplus, Qcopp, dec. cbn [this Q2Qc].
  rewrite !Qred_correct.
  change (10 ^ Z.of_nat 2)%Z with 100%Z.
  pose proof (round_half_even_nearest (x * inject_Z 100)) as [H1 H2].
  set (r := inject_Z (round_half_even (x * inject_Z 100))) in *.
  change (inject_Z 100) with (100 # 1) in *.
  unfold Qdiv. change (/ (100 # 1))%Q with (1 # 100).
  split; lra.
Qed.

Lemma sum_km_app (l k : list Qc) :
  sum_km (l ++ k) = (sum_km l + sum_km k)%Qc.
Proof.
  induction l as [|x l IH]; cbn.
  - by rewrite Qcplus_0_l.
  - fold (sum_km (l ++ k)). fold (sum_km l). by rewrite IH, Qcplus_assoc.
Qed.

Lemma sum_round_bounds (xs : list Qc) :
  (sum_km xs - Qc_of_Z (Z.of_nat (length xs)) * dec 1 200
   ≤ sum_km ((λ x, py_round x 2) <$> xs) ∧
   sum_km ((λ x, py_round x 2) <$> xs)
   ≤ sum_km xs + Qc_of_Z (Z.of_nat (length xs)) * dec 1 200)%Qc.
Proof.
  induction xs as [|x xs [IHlo IHhi]].
  - cbn. split; by_evaluation.
  - cbn [fmap list_fmap length sum_km foldr].
    fold (sum_km xs). fold (sum_km ((λ x, py_round x 2) <$> xs)).
    destruct (py_round_two_decimals x) as [Hlo Hhi].
    revert IHlo IHhi Hlo Hhi.
    generalize (sum_km ((λ x, py_round x 2) <$> xs)) as R.
    generalize (sum_km xs) as S0. generalize (py_round x 2) as r.
    intros r S0 R.
    rewrite Nat2Z.inj_succ.
    unfold Qcle, Qcminus, Qcplus, Qcopp, Qcmult, Qc_of_Z, dec.
    cbn [this Q2Qc]. rewrite !Qred_correct.
    unfold Z.succ. rewrite inject_Z_plus.
    change (inject_Z 1) with 1%Q.
    generalize (inject_Z (Z.of_nat (length xs))) as n.
    intros n ????. split; lra.
Qed.

Lemma fmap_by_index {A B} (f : A → B) (g : nat → B) (l : list A) :
  (∀ i a, l !! i = Some a → f a = g i) →
  f <$> l = g <$> seq 0 (length l).
Proof.
  intros Hfg. apply list_eq. intros i. rewrite !list_lookup_fmap.
  destruct (l !! i) as [a|] eqn:Ha.
  - rewrite lookup_seq_lt by (by eapply lookup_lt_Some). cbn.
    f_equal. by apply Hfg.
  - rewrite lookup_seq_ge; [done|]. by apply lookup_ge_None.
Qed.

Section Drift.

Variable geodesic : coord → coord → res Qc.
Hypothesis Hlib : returns_on_valid geodesic.
Abbreviation km := (km_of geodesic).

(** X17. The distances [optimize_route] writes on the venues are rounded
    to two decimals while the total adds the distances as they are, so
    the two can disagree - by at most 0.005 km for every leg of the
    route: on distinct venue objects with coordinates in range, the sum
    of the [distance_to_next] fields along the route lies within
    (n - 1) * 0.005 of the total returned, [n] being the number of
    venues. *)
Theorem distance_to_next_drift (h : heap) (locations : list addr)
    (start : option coord) :
  Forall (λ a, valid_venue (h a)) locations →
  from_option valid_coordinate True start →
  NoDup locations →
  locations ≠ [] →
  ∃ h' optimized total,
    optimize_route geodesic h locations start
    = Ret (h', Routed optimized total) ∧
    let shown :=
      sum_km ((λ a, get_num (h' a) "distance_to_next" 0%Qc) <$> optimized) in
    let slack :=
      (Qc_of_Z (Z.of_nat (length optimized - 1)) * dec 1 200)%Qc in
    (total - slack ≤ shown ∧ shown ≤ total + slack)%Qc.
Proof.
  intros Hvalid Hstart Hnd Hne.
  destruct (optimize_route_spec geodesic Hlib h locations start)
    as (route & h' & _ & _ & Hrun & Hperm & _ & _ & Hdtn); [done..|].
  cbn zeta in Hrun, Hperm, Hdtn.
  set (optimized := (λ i, locations !!! i) <$> route) in *.
  specialize (Hdtn Hnd).
  exists h', optimized, (sum_km (leg_distances km (h <$> optimized))).
  split; [exact Hrun|]. cbn zeta.
  assert (0 < length optimized) as Hpos.
  { rewrite Hperm. destruct locations; [done | cbn; lia]. }
  rewrite (fmap_by_index _
             (λ i, if decide (S i < length optimized)
                   then py_round (leg km h optimized i) 2 else 0%Qc)).
  2:{ intros i a Hi. unfold get_num. by rewrite (Hdtn i a Hi). }
  assert (seq 0 (length optimized)
          = seq 0 (length optimized - 1) ++ [length optimized - 1]) as ->.
  { transitivity (seq 0 (length optimized - 1 + 1)); [f_equal; lia|].
    by rewrite seq_app. }
  rewrite fmap_app, sum_km_app. cbn [fmap list_fmap].
  rewrite decide_False by lia. cbn [sum_km foldr].
  rewrite !Qcplus_0_r.
  rewrite <- leg_distances_seq.
  assert ((λ i, if decide (S i < length optimized)
                then py_round (leg km h optimized i) 2 else 0%Qc)
            <$> seq 0 (length optimized - 1)
          = (λ x, py_round x 2)
              <$> (leg km h optimized <$> seq 0 (length optimized - 1)))
    as ->.
  { rewrite <- list_fmap_compose. apply list_fmap_ext.
    intros i j Hj. apply lookup_seq in Hj as [-> Hj].
    cbn. by rewrite decide_True by lia. }
  pose proof (sum_round_bounds
                (leg km h optimized <$> seq 0 (length optimized - 1)))
    as Hbounds.
  by rewrite length_fmap, length_seq in Hbounds.
Qed.

End Drift.

(** ** The fallback search for a hotel's coordinate *)

Lemma line_coordinates_matches (hotel_name : string) (l : data_line)
    (c : coord) :
  line_coordinates hotel_name l = Some c ↔ line_matches hotel_name l c.
Proof.
  unfold line_coordinates, line_matches. split.
  - destruct l as [data|]; [|done].
    case_decide as Hname; [|done].
    destruct (rec_location data) as [[[|x [|y rest]]|]|] eqn:Hloc; try done.
    intros [= <-]. by exists data, rest.
  - intros (data & rest & -> & Hname & Hloc).
    rewrite decide_True by done. rewrite Hloc. by destruct c.
Qed.

Lemma line_coordinates_none (hotel_name : string) (l : data_line) :
  line_coordinates hotel_name l = None ↔
  ∀ c, ¬ line_matches hotel_name l c.
Proof.
  split.
  - intros Hnone c Hc. apply line_coordinates_matches in Hc. congruence.
  - intros Hno. destruct (line_coordinates hotel_name l) as [c|] eqn:Hc;
      [|done].
    apply line_coordinates_matches in Hc. by destruct (Hno c).
Qed.

Lemma scan_lines_none (hotel_name : string) (lines : list data_line) :
  scan_lines hotel_name lines = None ↔
  Forall (λ l, ∀ c, ¬ line_matches hotel_name l c) lines.
Proof.
  induction lines as [|l lines IH]; [done|]. cbn [scan_lines].
  rewrite Forall_cons, <- IH, <- line_coordinates_none.
  destruct (line_coordinates hotel_name l); [|tauto].
  split; [done | by intros [? _]].
Qed.

Lemma scan_lines_first (hotel_name : string) (lines : list data_line)
    (c : coord) :
  scan_lines hotel_name lines = Some c ↔
  ∃ before l after,
    lines = before ++ l :: after ∧
    Forall (λ l', ∀ c', ¬ line_matches hotel_name l' c') before ∧
    line_matches hotel_name l c.
Proof.
  induction lines as [|l lines IH]; cbn [scan_lines].
  - split; [done|]. intros (before & l & after & Heq & _).
    by destruct before.
  - destruct (line_coordinates hotel_name l) as [c0|] eqn:Hl.
    + split.
      * intros [= ->]. exists [], l, lines. split; [done|].
        split; [done|]. by apply line_coordinates_matches.
      * intros ([|l0 before] & l' & after & Heq & Hbefore & Hmatch);
          cbn in Heq; simplify_eq.
        -- apply line_coordinates_matches in Hmatch. congruence.
        -- apply Forall_cons in Hbefore as [Hno _].
           apply (line_coordinates_none hotel_name) in Hno. congruence.
    + rewrite IH.
      pose proof (proj1 (line_coordinates_none _ _) Hl) as Hno. split.
      * intros (before & l' & after & -> & Hbefore & Hmatch).
        exists (l :: before), l', after. split; [done|].
        split; [by constructor | done].
      * intros ([|l0 before] & l' & after & Heq & Hbefore & Hmatch);
          cbn in Heq; simplify_eq.
        -- by destruct (Hno c).
        -- apply Forall_cons in Hbefore as [_ Hbefore].
           by exists before, l', after.
Qed.

Lemma scan_files_first (hotel_name : string) (files : list data_file)
    (c : coord) :
  scan_files hotel_name files = Some c ↔
  ∃ silent lines later,
    files = silent ++ Some lines :: later ∧
    Forall (file_silent hotel_name) silent ∧
    scan_lines hotel_name lines = Some c.
Proof.
  induction files as [|[lines|] files IH]; cbn [scan_files].
  - split; [done|]. intros (silent & lines & later & Heq & _).
    by destruct silent.
  - destruct (scan_lines hotel_name lines) as [c0|] eqn:Hlines.
    + split.
      * intros [= ->]. by exists [], lines, files.
      * intros ([|f silent] & lines' & later & Heq & Hsilent & Hscan);
          cbn in Heq; simplify_eq; [congruence|].
        apply Forall_cons in Hsilent as [(lines0 & [= <-] & Hno) _].
        apply scan_lines_none in Hno. congruence.
    + rewrite IH. split.
      * intros (silent & lines' & later & -> & Hsilent & Hscan).
        exists (Some lines :: silent), lines', later. split; [done|].
        split; [|done]. constructor; [|done].
        exists lines. split; [done|]. by apply scan_lines_none.
      * intros ([|f silent] & lines' & later & Heq & Hsilent & Hscan);
          cbn in Heq; simplify_eq.
        apply Forall_cons in Hsilent as [_ Hsilent].
        by exists silent, lines', later.
  - split; [done|].
    intros ([|f silent] & lines' & later & Heq & Hsilent & Hscan);
      cbn in Heq; simplify_eq.
    by apply Forall_cons in Hsilent as [(lines0 & [=] & _) _].
Qed.

Lemma scan_files_silent (hotel_name : string) (files : list data_file) :
  Forall (file_silent hotel_name) files →
  scan_files hotel_name files = None.
Proof.
  induction 1 as [|f files (lines & -> & Hno) Hsilent IH]; [done|].
  cbn [scan_files]. apply scan_lines_none in Hno. by rewrite Hno.
Qed.

Lemma scan_files_unreadable (hotel_name : string)
    (silent later : list data_file) :
  Forall (file_silent hotel_name) silent →
  scan_files hotel_name (silent ++ None :: later) = None.
Proof.
  induction 1 as [|f silent (lines & -> & Hno) Hsilent IH]; [done|].
  cbn [app scan_files]. apply scan_lines_none in Hno. by rewrite Hno.
Qed.

(** X6. [get_hotel_coordinates] returns a coordinate exactly when, among
    the first five data files, there is one that holds a line with a
    record of that hotel name and a location of two numbers or more,
    every file before it could be opened and holds no such line; the
    coordinate is that of the first such line of the file (its first two
    numbers).  Lines that cannot be parsed, records of another name and
    locations that are malformed or too short are stepped over.  The
    address plays no part. *)
Theorem get_hotel_coordinates_first_match (files : list data_file)
    (hotel_name address : string) (c : coord) :
  get_hotel_coordinates files hotel_name address = Some c ↔
  ∃ silent before l after later,
    take 5 files = silent ++ Some (before ++ l :: after) :: later ∧
    Forall (file_silent hotel_name) silent ∧
    Forall (λ l', ∀ c', ¬ line_matches hotel_name l' c') before ∧
    line_matches hotel_name l c.
Proof.
  unfold get_hotel_coordinates. rewrite scan_files_first. split.
  - intros (silent & lines & later & Heq & Hsilent & Hscan).
    apply scan_lines_first in Hscan
      as (before & l & after & -> & Hbefore & Hmatch).
    by exists silent, before, l, after, later.
  - intros (silent & before & l & after & later & Heq & Hsilent & Hbefore
            & Hmatch).
    exists silent, (before ++ l :: after), later. split; [done|].
    split; [done|]. apply scan_lines_first.
    by exists before, l, after.
Qed.

(** X7. A data file that cannot be opened ends the search of
    [get_hotel_coordinates]: when the files before it hold no line for
    the hotel, the result is [None], whatever the files after it hold. *)
Theorem get_hotel_coordinates_stops_at_unreadable
    (silent later : list data_file) (hotel_name address : string) :
  Forall (file_silent hotel_name) silent →
  get_hotel_coordinates (silent ++ None :: later) hotel_name address = None.
Proof.
  intros Hsilent. unfold get_hotel_coordinates. rewrite take_app.
  destruct (decide (length silent < 5)) as [Hshort|Hlong].
  - rewrite take_ge by lia.
    destruct (5 - length silent) as [|m] eqn:Hm; [lia|].
    cbn [take]. by apply scan_files_unreadable.
  - replace (5 - length silent) with 0 by lia. rewrite take_0, app_nil_r.
    apply scan_files_silent. by apply Forall_take.
Qed.

(** ** Where an optimised route starts *)

Section RouteStart.

Variable geodesic : coord → coord → res Qc.
Hypothesis Hlib : returns_on_valid geodesic.
Abbreviation km := (km_of geodesic).

(** X16. The route [optimize_route] returns for a non-empty list of
    venues, with coordinates in range, is not empty.  Without a start it
    begins with the first venue of the list; with a start it begins with
    a venue of the list that is nearest to the start: no venue of the
    list is nearer. *)
Theorem optimize_route_first_venue (h : heap) (a0 : addr) (more : list addr)
    (start : option coord) :
  Forall (λ a, valid_venue (h a)) (a0 :: more) →
  from_option valid_coordinate True start →
  ∃ h' first rest total,
    optimize_route geodesic h (a0 :: more) start
    = Ret (h', Routed (first :: rest) total) ∧
    first ∈ a0 :: more ∧
    match start with
    | None => first = a0
    | Some s =>
        ∀ a, a ∈ a0 :: more →
          (km s (coords_of (h first)) ≤ km s (coords_of (h a)))%Qc
    end.
Proof.
  intros Hvalid Hstart. set (locations := a0 :: more) in *.
  destruct (optimize_route_spec geodesic Hlib h locations start)
    as (route & h' & Hnn & Hrperm & Hrun & Hperm & _); [done..|].
  cbn zeta in *.
  destruct more as [|a1 more'].
  - cbn in Hnn. injection Hnn as <-. cbn in Hrun.
    exists h', a0, [], (sum_km (leg_distances km [h a0])).
    split; [exact Hrun|]. split; [left|].
    destruct start as [s|]; [|done].
    intros a [->|[]%elem_of_nil]%elem_of_cons. apply Qcle_refl.
  - set (coords := (λ a, coords_of (h a)) <$> locations) in *.
    assert (Forall valid_coordinate coords) as Hcoords.
    { apply Forall_fmap. eapply Forall_impl; [exact Hvalid|]. done. }
    assert (length coords = length locations) as Hlen
      by apply length_fmap.
    destruct (nearest_neighbor_route_run geodesic Hlib coords start)
      as (first & tail & Hrun' & Hlt & Hfirst & _); [done | done | |].
    { rewrite Hlen. cbn. lia. }
    rewrite Hnn in Hrun'. injection Hrun' as ->.
    rewrite Hlen in Hlt.
    destruct (lookup_lt_is_Some_2 locations first Hlt) as [a Ha].
    rewrite fmap_cons, (list_lookup_total_correct _ _ _ Ha) in Hrun.
    eexists h', a, _, _. split; [exact Hrun|].
    split; [by eapply list_elem_of_lookup_2|].
    destruct start as [s|]; unfold first_choice in Hfirst.
    + intros b Hb. destruct Hfirst as [_ Hmin].
      apply list_elem_of_lookup_1 in Hb as [j Hj].
      destruct (Hmin j) as [Hle _].
      { apply elem_of_seq. apply lookup_lt_Some in Hj. lia. }
      rewrite (coord_at_lookup coords first (coords_of (h a))) in Hle
        by (subst coords; by rewrite list_lookup_fmap, Ha).
      rewrite (coord_at_lookup coords j (coords_of (h b))) in Hle
        by (subst coords; by rewrite list_lookup_fmap, Hj).
      exact Hle.
    + subst first. cbn in Ha. by injection Ha as <-.
Qed.

End RouteStart.

(** ** Travel time grows with the distance *)

Lemma round_half_even_mono (x y : Q) :
  (x <= y)%Q → (round_half_even x ≤ round_half_even y)%Z.
Proof.
  intros Hxy. unfold round_half_even.
  pose proof (Qfloor_resp_le x y Hxy) as Hfloor.
  pose proof (Qfloor_le x) as Hxlo. pose proof (Qlt_floor x) as Hxhi.
  pose proof (Qfloor_le y) as Hylo. pose proof (Qlt_floor y) as Hyhi.
  rewrite inject_Z_plus in Hxhi, Hyhi.
  change (inject_Z 1) with 1%Q in Hxhi, Hyhi.
  destruct (decide (Qfloor x = Qfloor y)) as [Heq|Hne].
  - rewrite <- Heq in *.
    destruct (Qcompare_spec (x - inject_Z (Qfloor x)) (1 # 2)) as [Hx|Hx|Hx],
             (Qcompare_spec (y - inject_Z (Qfloor x)) (1 # 2)) as [Hy|Hy|Hy];
      try destruct (Z.even (Qfloor x)); try lia; exfalso; lra.
  - assert (Qfloor x + 1 ≤ Qfloor y)%Z as Hlt by lia.
    destruct (x - inject_Z (Qfloor x) ?= 1 # 2)%Q,
             (y - inject_Z (Qfloor y) ?= 1 # 2)%Q;
      try destruct (Z.even (Qfloor x)); try destruct (Z.even (Qfloor y)); lia.
Qed.

Lemma py_round_mono (x y : Qc) (ndigits : nat) :
  (x ≤ y)%Qc → (py_round x ndigits ≤ py_round y ndigits)%Qc.
Proof.
  intros Hxy. unfold py_round, Qcle. cbn [this Q2Qc].
  rewrite !Qred_correct.
  assert (0 < inject_Z (10 ^ Z.of_nat ndigits))%Q as Hscale.
  { change 0%Q with (inject_Z 0). rewrite <- Zlt_Qlt.
    apply Z.pow_pos_nonneg; lia. }
  apply Qmult_le_compat_r.
  - rewrite <- Zle_Qle. apply round_half_even_mono.
    apply Qmult_le_compat_r; [exact Hxy|]. by apply Qlt_le_weak.
  - apply Qinv_le_0_compat. by apply Qlt_le_weak.
Qed.

Lemma mode_speed_cases (mode : string) :
  mode_speed mode ∈ [num 50; num 5; num 30; num 15].
Proof.
  unfold mode_speed. repeat case_decide;
    repeat first [ by left | right ].
Qed.

Lemma calculate_travel_time_speed (distance_km : Qc) (mode : string) :
  calculate_travel_time distance_km mode
  = py_round (distance_km * (/ mode_speed mode * num 60))%Qc 1.
Proof.
  unfold calculate_travel_time. cbn zeta. rewrite speeds_lookup.
  unfold Qcdiv. by rewrite Qcmult_assoc.
Qed.

(** X10. The travel time never decreases when the distance grows, for
    every mode; it is 0 for a distance of 0 and never negative for a
    distance that is not negative. *)
Theorem calculate_travel_time_monotone (d1 d2 : Qc) (mode : string) :
  (d1 ≤ d2)%Qc →
  (calculate_travel_time d1 mode ≤ calculate_travel_time d2 mode)%Qc ∧
  calculate_travel_time 0%Qc mode = 0%Qc ∧
  ((0 ≤ d1)%Qc → (0 ≤ calculate_travel_time d1 mode)%Qc).
Proof.
  intros Hle.
  assert (∀ a b, (a ≤ b)%Qc →
            (calculate_travel_time a mode ≤ calculate_travel_time b mode)%Qc)
    as Hmono.
  { intros a b Hab. rewrite !calculate_travel_time_speed.
    apply py_round_mono, Qcmult_le_compat_r; [done|].
    pose proof (mode_speed_cases mode) as Hs.
    repeat (apply elem_of_cons in Hs as [->|Hs]); [by_evaluation ..|].
    by apply elem_of_nil in Hs. }
  assert (calculate_travel_time 0%Qc mode = 0%Qc) as Hzero.
  { rewrite calculate_travel_time_speed, Qcmult_0_l. by_evaluation. }
  split; [by apply Hmono|]. split; [done|].
  intros Hpos. rewrite <- Hzero. by apply Hmono.
Qed.

(** X11. A faster mode never takes longer: for a distance that is not
    negative, the travel time of a mode is at most that of any mode
    whose speed in the table is not higher, a mode that is not in the
    table counting as driving.  So driving takes at most as long as
    transit, transit as cycling, and cycling as walking. *)
Theorem faster_mode_never_slower (distance_km : Qc) (mode1 mode2 : string) :
  (0 ≤ distance_km)%Qc →
  (mode_speed mode2 ≤ mode_speed mode1)%Qc →
  (calculate_travel_time distance_km mode1
   ≤ calculate_travel_time distance_km mode2)%Qc.
Proof.
  intros Hpos Hspeed. rewrite !calculate_travel_time_speed.
  apply py_round_mono, Qcmult_le_mono_nonneg_l; [done|].
  pose proof (mode_speed_cases mode1) as Hs1.
  pose proof (mode_speed_cases mode2) as Hs2.
  revert Hspeed.
  repeat (apply elem_of_cons in Hs1 as [->|Hs1]);
    try (by apply elem_of_nil in Hs1);
    repeat (apply elem_of_cons in Hs2 as [->|Hs2]);
    try (by apply elem_of_nil in Hs2);
    by_evaluation.
Qed.

(** ** Live routes and their fallback *)

Section TrafficProps.

Variable geodesic : coord → coord → res Qc.
Variable osrm_get : string → coord → coord → option osrm_data.
Variable google_get : string → string → coord → coord → option google_data.

Lemma fallback_route_estimate (origin destination : coord) (mode : string)
    (distance_km : Qc) :
  geodesic origin destination = Ret distance_km →
  ∃ r, _fallback_route geodesic origin destination mode = Ret r ∧
       estimate distance_km mode r.
Proof.
  intros Hd. unfold _fallback_route, calculate_distance.
  rewrite <- !surjective_pairing, Hd. cbn [mbind res_bind].
  eexists. split; [done|]. by repeat split.
Qed.

Lemma fallback_route_raises (origin destination : coord) (mode : string)
    (e : exn) :
  geodesic origin destination = Raise e →
  _fallback_route geodesic origin destination mode = Raise e.
Proof.
  intros Hd. unfold _fallback_route, calculate_distance.
  by rewrite <- !surjective_pairing, Hd.
Qed.

(** Whatever the service answers, the OSRM path ends in a record built
    from the answer or in the outcome of the fallback. *)
Lemma get_osrm_route_outcome (origin destination : coord) (mode : string) :
  (∃ r, _get_osrm_route geodesic osrm_get origin destination mode = Ret r ∧
        live_answer r) ∨
  _get_osrm_route geodesic osrm_get origin destination mode
  = _fallback_route geodesic origin destination mode.
Proof.
  unfold _get_osrm_route.
  destruct (osrm_get _ origin destination) as [[[code|] routes]|];
    cbn [service_answer item osrm_code osrm_routes mbind res_bind try_except];
    [|by right..].
  destruct (_fallback_route geodesic origin destination mode)
    as [fb|e|] eqn:Hfb.
  all: case_decide; [|by right].
  all: destruct routes as [[|[[dist|] [dur|]] routes]|];
    cbn [item mbind res_bind length index lookup list_lookup
         route_distance route_duration try_except];
    try (by right).
  all: try (rewrite decide_False by lia; by right).
  all: rewrite decide_True by lia;
    cbn [item mbind res_bind length index lookup list_lookup
         route_distance route_duration try_except].
  all: try (by right).
  all: left; eexists; split; [done|].
  all: split; [done|]; split; [by left|]; by repeat split; eexists.
Qed.

Lemma get_google_route_outcome (key : string) (origin destination : coord)
    (mode : string) :
  (∃ r, _get_google_route geodesic google_get key origin destination mode
        = Ret r ∧ live_answer r) ∨
  _get_google_route geodesic google_get key origin destination mode
  = _fallback_route geodesic origin destination mode.
Proof.
  unfold _get_google_route.
  destruct (google_get mode key origin destination) as [[[status|] routes]|];
    cbn [service_answer item google_status google_routes mbind res_bind
         try_except];
    [|by right..].
  destruct (_fallback_route geodesic origin destination mode)
    as [fb|e|] eqn:Hfb.
  all: case_decide; [|by right].
  all: destruct routes as [[|[[[|[[dist|] [dur|]] legs]|]] routes]|];
    cbn [item mbind res_bind length index lookup list_lookup
         route_legs leg_distance leg_duration try_except];
    try (by right).
  all: try (rewrite decide_False by lia; by right).
  all: rewrite decide_True by lia;
    cbn [item mbind res_bind length index lookup list_lookup
         route_legs leg_distance leg_duration try_except].
  all: try (by right).
  all: left; eexists; split; [done|].
  all: split; [done|]; split; [by right|]; by repeat split; eexists.
Qed.

Lemma get_route_outcome (self : TrafficAPI) (origin destination : coord)
    (mode : string) :
  (∃ r, get_route geodesic osrm_get google_get self origin destination mode
        = Ret r ∧ live_answer r) ∨
  get_route geodesic osrm_get google_get self origin destination mode
  = _fallback_route geodesic origin destination mode.
Proof.
  unfold get_route.
  destruct (truthy_str (google_api_key self) && negb (use_osrm self)).
  - apply get_google_route_outcome.
  - apply get_osrm_route_outcome.
Qed.

(** X12. [get_route] never fails on the side of the routing service:
    whatever the service does - no answer, an error status, an answer with
    fields missing - and whichever service the object is set up for, the
    result for two coordinates in range is a record built from the
    answer of the service (status "success") or the estimate of
    [_fallback_route] (status "estimated"): the geodesic distance rounded
    to two decimals and the travel time of the unrounded distance for the
    mode, with no [duration_seconds]. *)
Theorem get_route_returns (self : TrafficAPI) (origin destination : coord)
    (mode : string) :
  returns_on_valid geodesic →
  valid_coordinate origin →
  valid_coordinate destination →
  ∃ r,
    get_route geodesic osrm_get google_get self origin destination mode
    = Ret r ∧
    (live_answer r ∨ estimate (km_of geodesic origin destination) mode r).
Proof.
  intros Hlib Ho Hd.
  destruct (get_route_outcome self origin destination mode)
    as [(r & Hr & Hlive)|Hfb].
  - exists r. split; [done | by left].
  - destruct (fallback_route_estimate origin destination mode
                (km_of geodesic origin destination)) as (r & Hr & Hest).
    { by apply geodesic_on_valid. }
    exists r. split; [congruence | by right].
Qed.

(** X13. The handler of [get_route] is not itself guarded: when the
    library raises on the two coordinates, [get_route] either returns a
    record built from the answer of the service, or raises the error of
    the library. *)
Theorem get_route_escalates (self : TrafficAPI) (origin destination : coord)
    (mode : string) (e : exn) :
  geodesic origin destination = Raise e →
  (∃ r, get_route geodesic osrm_get google_get self origin destination mode
        = Ret r ∧ live_answer r) ∨
  get_route geodesic osrm_get google_get self origin destination mode
  = Raise e.
Proof.
  intros He.
  destruct (get_route_outcome self origin destination mode) as [Hlive|Hfb];
    [by left|].
  right. rewrite Hfb. by apply fallback_route_raises.
Qed.

Lemma get_osrm_route_profile (origin destination : coord) (mode : string)
    (r : pydict) :
  mode ≠ "driving"%string →
  _get_osrm_route geodesic osrm_get origin destination "walking" = Ret r →
  live_answer r →
  _get_osrm_route geodesic osrm_get origin destination mode = Ret r.
Proof.
  intros Hmode Hr (Hstatus & _). revert Hr. unfold _get_osrm_route.
  rewrite (decide_False (P:=mode = "driving"%string)) by done.
  rewrite (decide_False (P:="walking"%string = "driving"%string)) by done.
  assert (∀ m r', _fallback_route geodesic origin destination m = Ret r' →
                  strs r' !! "status" = Some "estimated"%string) as Hest.
  { intros m r'. unfold _fallback_route.
    destruct (calculate_distance _ _ _ _ _); [|done..].
    cbn [mbind res_bind]. by intros [= <-]. }
  assert (∀ m, _fallback_route geodesic origin destination m = Ret r → False)
    as Hno.
  { intros m Hm. apply Hest in Hm. congruence. }
  destruct (osrm_get "walking" origin destination) as [[[code|] routes]|];
    cbn [service_answer item osrm_code osrm_routes mbind res_bind try_except].
  2,3: intros Hr; by destruct (Hno "walking"%string).
  case_decide.
  2:{ destruct (_fallback_route geodesic origin destination "walking")
        eqn:Hfb; cbn [try_except]; intros Hr; try done;
        by destruct (Hno "walking"%string); congruence. }
  destruct routes as [[|[[dist|] [dur|]] routes]|];
    cbn [item mbind res_bind length index lookup list_lookup
         route_distance route_duration try_except].
  all: try (intros Hr; by destruct (Hno "walking"%string)).
  all: try (rewrite decide_False by lia).
  all: try (rewrite decide_True by (cbn; lia)).
  all: cbn [item mbind res_bind length index lookup list_lookup
            route_distance route_duration try_except].
  all: try done.
  all: try (intros Hr; by destruct (Hno "walking"%string)).
  all: destruct (_fallback_route geodesic origin destination "walking")
         eqn:Hfb; cbn [try_except]; intros Hr; try done;
         by destruct (Hno "walking"%string); congruence.
Qed.

(** X14. The OSRM path knows two profiles only: every mode other than
    "driving" - "cycling" and "transit" too - is asked as "walking".  So
    on an object that uses OSRM, when the service has an answer for the
    way on foot, [get_route] returns that answer, with its walking
    duration, for every mode other than "driving". *)
Theorem get_route_walking_profile (self : TrafficAPI)
    (origin destination : coord) (mode : string) (r : pydict) :
  truthy_str (google_api_key self) && negb (use_osrm self) = false →
  mode ≠ "driving"%string →
  get_route geodesic osrm_get google_get self origin destination "walking"
  = Ret r →
  live_answer r →
  get_route geodesic osrm_get google_get self origin destination mode
  = Ret r.
Proof.
  unfold get_route. intros -> Hmode Hr Hlive.
  by apply get_osrm_route_profile.
Qed.

End TrafficProps.

(** ** The per-day routes of the planner *)

Lemma optimize_days_skips (geodesic : coord → coord → res Qc)
    (days : list Z) (state : heap * gmap string route_summary) :
  optimize_days geodesic days state = Ret state.
Proof. induction days as [|day days IH]; [done|]. cbn. exact IH. Qed.

(** X15. [_optimize_routes] optimises nothing: the list of locations of
    a day is empty when it is tested, so for every number of days the
    result is the empty dictionary, no venue is touched and neither
    [optimize_route] nor the distance library is called. *)
Theorem optimize_routes_empty (geodesic : coord → coord → res Qc)
    (h : heap) (plan_days : Z) :
  _optimize_routes geodesic h plan_days = Ret (h, ∅).
Proof. apply optimize_days_skips. Qed.

(** ** Optimising and clustering a second time *)

Lemma filter_ne_first_seq (j n : nat) :
  filter (λ y, y ≠ j) (seq j (S n)) = seq (S j) n.
Proof.
  cbn [seq]. rewrite filter_cons_False by (intros Hne; by apply Hne).
  apply filter_all, Forall_forall. intros y Hy. apply elem_of_seq in Hy. lia.
Qed.

Section Twice.

Variable geodesic : coord → coord → res Qc.
Hypothesis Hlib : returns_on_valid geodesic.
Abbreviation km := (km_of geodesic).

Lemma nearest_to_unique (locations : list coord) (p : coord)
    (cands : list nat) (k1 k2 : nat) :
  nearest_to km locations p cands k1 →
  nearest_to km locations p cands k2 →
  k1 = k2.
Proof.
  intros [Hin1 Hmin1] [Hin2 Hmin2].
  destruct (Hmin1 k2 Hin2) as [Hle1 Htie1].
  destruct (Hmin2 k1 Hin1) as [Hle2 Htie2].
  assert (km p (coord_at locations k1) = km p (coord_at locations k2)) as Heq
    by (by apply Qcle_antisym).
  specialize (Htie1 (eq_sym Heq)). specialize (Htie2 Heq). lia.
Qed.

Lemma greedy_walk_unique (locations : list coord) :
  ∀ tail1 tail2 current unvisited,
    greedy_walk km locations current unvisited tail1 →
    greedy_walk km locations current unvisited tail2 →
    tail1 = tail2.
Proof.
  induction tail1 as [|k1 tail1 IH]; intros [|k2 tail2] current unvisited H1 H2.
  - done.
  - cbn in H1. destruct H2 as [[Hin _] _]. subst.
    by apply elem_of_nil in Hin.
  - cbn in H2. destruct H1 as [[Hin _] _]. subst.
    by apply elem_of_nil in Hin.
  - destruct H1 as [Hn1 Hw1], H2 as [Hn2 Hw2].
    pose proof (nearest_to_unique _ _ _ _ _ Hn1 Hn2) as <-.
    f_equal. by eapply IH.
Qed.

Lemma greedy_walk_subset (locations : list coord) :
  ∀ tail current unvisited,
    greedy_walk km locations current unvisited tail →
    ∀ x, x ∈ tail → x ∈ unvisited.
Proof.
  induction tail as [|k tail IH]; intros current unvisited Hwalk x Hx.
  - by apply elem_of_nil in Hx.
  - destruct Hwalk as [[Hin _] Hwalk].
    apply elem_of_cons in Hx as [->|Hx]; [done|].
    specialize (IH _ _ Hwalk x Hx).
    by apply list_elem_of_filter in IH as [_ ?].
Qed.

(** A greedy walk, read in the order in which it visits the places, is
    the walk 0, 1, 2, ... *)
Lemma greedy_walk_reindex (locations : list coord) :
  ∀ tail before current unvisited,
    greedy_walk km locations current unvisited tail →
    greedy_walk km (coord_at locations <$> before ++ current :: tail)
      (length before)
      (seq (S (length before)) (length tail))
      (seq (S (length before)) (length tail)).
Proof.
  induction tail as [|t tail IH]; intros before current unvisited Hwalk;
    [done|].
  pose proof (greedy_walk_subset _ _ _ _ Hwalk) as Hsub.
  destruct Hwalk as [[Hin Hmin] Hwalk].
  set (visited := before ++ current :: t :: tail).
  assert (∀ m x, (current :: t :: tail) !! m = Some x →
            coord_at (coord_at locations <$> visited) (length before + m)
            = coord_at locations x) as Hat.
  { intros m x Hx. apply coord_at_lookup.
    rewrite list_lookup_fmap. subst visited.
    rewrite lookup_app_r by lia.
    replace (length before + m - length before) with m by lia.
    by rewrite Hx. }
  cbn [length seq greedy_walk]. split.
  - split; [left|]. intros j Hj.
    apply elem_of_cons in Hj as [->|Hj].
    + split; [apply Qcle_refl | done].
    + apply elem_of_seq in Hj.
      destruct (lookup_lt_is_Some_2 (current :: t :: tail)
                  (j - length before)) as [x Hx]; [cbn; lia|].
      rewrite <- (Nat.add_0_r (length before)) at 1 3.
      rewrite (Hat 0 current) by done.
      replace (S (length before)) with (length before + 1) by lia.
      rewrite (Hat 1 t) by done.
      replace j with (length before + (j - length before)) at 1 2 by lia.
      rewrite (Hat _ x Hx).
      destruct (Hmin x) as [Hle _].
      { apply Hsub. apply list_elem_of_lookup_2 with (j - length before - 1).
        replace (j - length before) with (S (j - length before - 1)) in Hx
          by lia.
        exact Hx. }
      split; [exact Hle | lia].
  - change (S (length before) :: seq (S (S (length before))) (length tail))
      with (seq (S (length before)) (S (length tail))).
    rewrite filter_ne_first_seq.
    specialize (IH (before ++ [current]) t _ Hwalk).
    rewrite length_app in IH. cbn [length] in IH.
    rewrite Nat.add_1_r in IH.
    subst visited. by rewrite <- app_assoc in IH.
Qed.

Lemma nearest_neighbor_route_again (locations : list coord) :
  Forall valid_coordinate locations →
  ∃ route,
    nearest_neighbor_route geodesic locations None = Ret route ∧
    route ≡ₚ seq 0 (length locations) ∧
    nearest_neighbor_route geodesic (coord_at locations <$> route) None
    = Ret (seq 0 (length locations)).
Proof.
  intros Hvalid.
  destruct (decide (2 ≤ length locations)) as [Hlen|Hlen].
  2:{ destruct locations as [|c1 [|c2 rest]];
        [by exists [] | by exists [0] | cbn in Hlen; lia]. }
  destruct (nearest_neighbor_route_run geodesic Hlib locations None
              Hvalid I Hlen)
    as (first & tail & Hrun & Hlt & Hfirst & Hperm & Hwalk).
  cbn in Hfirst. subst first.
  assert (0 :: tail ≡ₚ seq 0 (length locations)) as Hroute.
  { rewrite Hperm. symmetry.
    apply NoDup_remove_perm; [apply NoDup_seq | apply elem_of_seq; lia]. }
  exists (0 :: tail). split; [done|]. split; [done|].
  set (again := coord_at locations <$> 0 :: tail).
  assert (length again = length locations) as Hlen'.
  { subst again. by rewrite length_fmap, Hroute, length_seq. }
  assert (Forall valid_coordinate again) as Hvalid'.
  { subst again. apply Forall_fmap, Forall_forall. intros i Hi. cbn.
    rewrite Hroute in Hi. apply elem_of_seq in Hi.
    destruct (lookup_lt_is_Some_2 locations i) as [c Hc]; [lia|].
    rewrite (coord_at_lookup _ _ _ Hc). by eapply Forall_lookup_1. }
  destruct (nearest_neighbor_route_run geodesic Hlib again None Hvalid' I)
    as (first' & tail' & Hrun' & _ & Hfirst' & _ & Hwalk'); [lia|].
  cbn in Hfirst'. subst first'. rewrite Hrun'. f_equal.
  rewrite Hlen' in Hwalk'.
  pose proof (greedy_walk_reindex locations tail [] 0 _ Hwalk) as Hre.
  cbn [app length] in Hre. fold again in Hre.
  assert (length tail = length locations - 1) as Htail.
  { apply Permutation_length in Hroute. rewrite length_seq in Hroute.
    cbn in Hroute. lia. }
  rewrite Htail in Hre.
  destruct (length locations) as [|n] eqn:Hn; [lia|].
  rewrite filter_ne_first_seq in Hwalk'.
  replace (S n - 1) with n in Hre by lia.
  cbn [seq]. f_equal. by eapply greedy_walk_unique.
Qed.

(** X19. Optimising an optimised route changes nothing: when
    [optimize_route], without a start, has put the venues in the order
    [optimized], a second call on that list returns the same order and
    the same total distance. *)
Theorem optimize_route_twice (h : heap) (locations : list addr) :
  Forall (λ a, valid_venue (h a)) locations →
  locations ≠ [] →
  ∃ h' h'' optimized total,
    optimize_route geodesic h locations None
    = Ret (h', Routed optimized total) ∧
    optimize_route geodesic h' optimized None
    = Ret (h'', Routed optimized total).
Proof.
  intros Hvalid Hne.
  destruct (optimize_route_spec geodesic Hlib h locations None)
    as (route & h' & Hnn & Hrperm & Hrun & Hperm & Hsame & _); [done..|].
  cbn zeta in *. set (optimized := (λ i, locations !!! i) <$> route) in *.
  assert (∀ a, coords_of (h' a) = coords_of (h a)) as Hcoords.
  { intros a. by apply same_but_distance_coords. }
  assert (Forall (λ a, valid_venue (h' a)) optimized) as Hvalid'.
  { rewrite Hperm. eapply Forall_impl; [exact Hvalid|].
    intros a Ha. unfold valid_venue. by rewrite Hcoords. }
  assert (optimized ≠ []) as Hne'.
  { intros Hnil. rewrite Hnil in Hperm. apply Permutation_nil_l in Hperm.
    done. }
  destruct (optimize_route_spec geodesic Hlib h' optimized None)
    as (route' & h'' & Hnn' & _ & Hrun' & _); [done..|].
  cbn zeta in *.
  exists h', h'', optimized,
    (sum_km (leg_distances km (h <$> optimized))).
  split; [exact Hrun|].
  set (coords := (λ a, coords_of (h a)) <$> locations) in *.
  destruct (nearest_neighbor_route_again coords) as (r & Hr & _ & Hagain).
  { subst coords. apply Forall_fmap. eapply Forall_impl; [exact Hvalid|].
    done. }
  rewrite Hnn in Hr. injection Hr as <-.
  assert ((λ a, coords_of (h' a)) <$> optimized = coord_at coords <$> route)
    as Hsame_coords.
  { subst optimized. rewrite <- list_fmap_compose.
    apply list_fmap_ext. intros j i Hi. cbn.
    assert (i < length locations) as Hlt.
    { apply list_elem_of_lookup_2 in Hi. rewrite Hrperm in Hi.
      apply elem_of_seq in Hi. lia. }
    destruct (lookup_lt_is_Some_2 locations i Hlt) as [a Ha].
    rewrite (list_lookup_total_correct _ _ _ Ha), Hcoords.
    symmetry. apply coord_at_lookup. subst coords.
    by rewrite list_lookup_fmap, Ha. }
  rewrite Hsame_coords, Hagain in Hnn'. injection Hnn' as <-.
  assert (length coords = length optimized) as Hlen.
  { subst coords. by rewrite length_fmap, Hperm. }
  rewrite Hlen, fmap_lookup_total_seq in Hrun'.
  rewrite Hrun'.
  by rewrite (leg_distances_same_coords geodesic h h' optimized Hcoords).
Qed.

Lemma cluster_loop_again (max_distance_km : Qc) :
  ∀ clusters fuel done_,
    Forall valid_venue (concat clusters) →
    Forall (seed_ball km max_distance_km) clusters →
    far_from_earlier_seeds km max_distance_km clusters →
    length (concat clusters) ≤ fuel →
    cluster_loop geodesic fuel max_distance_km (concat clusters) done_
    = Ret (done_ ++ clusters).
Proof.
  induction clusters as [|c later IH];
    intros fuel done_ Hvalid Hball Hfar Hfuel.
  - cbn. rewrite app_nil_r. by destruct fuel.
  - apply Forall_cons in Hball as [(seed & members & -> & Hin) Hball].
    destruct Hfar as [Hout Hfar]. specialize (Hout seed eq_refl).
    cbn [concat app] in *.
    destruct fuel as [|fuel]; [cbn in Hfuel; lia|].
    rewrite (cluster_loop_step geodesic Hlib) by (done || cbn in Hfuel; lia).
    rewrite !filter_app.
    rewrite (filter_all (λ v, (km (coords_of seed) (coords_of v)
                               ≤ max_distance_km)%Qc) members) by done.
    rewrite (filter_none (λ v, (km (coords_of seed) (coords_of v)
                                ≤ max_distance_km)%Qc) (concat later))
      by done.
    rewrite (filter_none (λ v, ¬ (km (coords_of seed) (coords_of v)
                                  ≤ max_distance_km)%Qc) members).
    2:{ eapply Forall_impl; [exact Hin|]. intros v Hv Hn. by apply Hn. }
    rewrite (filter_all (λ v, ¬ (km (coords_of seed) (coords_of v)
                                 ≤ max_distance_km)%Qc) (concat later))
      by done.
    rewrite app_nil_r. cbn [app].
    rewrite IH; [by rewrite <- app_assoc | | done | done |].
    + apply Forall_cons in Hvalid as [_ Hvalid].
      by apply Forall_app in Hvalid as [_ ?].
    + cbn in Hfuel. rewrite length_app in Hfuel. lia.
Qed.

(** X20. Clustering the clusters again changes nothing: when
    [cluster_by_proximity] has split the venues into [clusters], a second
    call on the venues taken cluster after cluster returns the same
    clusters. *)
Theorem cluster_by_proximity_twice (locations : list pydict)
    (max_distance_km : Qc) :
  Forall valid_venue locations →
  ∃ clusters,
    cluster_by_proximity geodesic locations max_distance_km = Ret clusters ∧
    cluster_by_proximity geodesic (concat clusters) max_distance_km
    = Ret clusters.
Proof.
  intros Hvalid. destruct locations as [|seed rest].
  { by exists []. }
  destruct (cluster_loop_partition geodesic Hlib max_distance_km
              (length (seed :: rest)) (seed :: rest) [])
    as (clusters & Hrun & Hperm & Hball & Hfar); [done | done |].
  exists clusters. split; [exact Hrun|].
  assert (Forall valid_venue (concat clusters)) as Hvalid'
    by (by rewrite Hperm).
  unfold cluster_by_proximity.
  destruct (concat clusters) as [|v vs] eqn:Hconcat.
  { by apply Permutation_nil_l in Hperm. }
  rewrite <- Hconcat.
  apply (cluster_loop_again max_distance_km clusters _ []); [|done..].
  by rewrite Hconcat.
Qed.

End Twice.

(** ** The further properties at work on examples *)

(** The lodge of [lodge_plan], resolved through [lodge_file], the museum
    and the bistro make one day of three venues. *)
Lemma calculate_route_days_witness :
  ∃ routes,
    calculate_route grid_call [lodge_file] lodge_plan = Ret (Routes routes) ∧
    routes.*1 = ["Day 1"%string] ∧
    Forall2 (λ dl dr, dr.1 = dl.1 ∧ routes_day dl.2 dr.2)
      (group_by_day (extract_locations [lodge_file] lodge_plan)) routes.
Proof.
  assert (Forall valid_location (extract_locations [lodge_file] lodge_plan))
    as Hvalid by by_evaluation.
  assert (2 ≤ length (extract_locations [lodge_file] lodge_plan)) as Hlen
    by by_evaluation.
  destruct (calculate_route_days grid_call grid_call_returns [lodge_file]
              lodge_plan Hvalid Hlen) as (routes & Hrun & Hkeys & Hall).
  exists routes. split; [exact Hrun|]. split; [exact Hkeys | exact Hall].
Defined.

Lemma day_one_starts_at_hotel_witness :
  ∃ l more r routes v vs,
    hotels lodge_plan ≫= hotel_locations [lodge_file] = l :: more ∧
    calculate_route grid_call [lodge_file] lodge_plan
    = Ret (Routes (("Day 1"%string, r) :: routes)) ∧
    route_locations r = v :: vs ∧
    (v = l ∨ routed_from l v).
Proof.
  assert (Forall valid_location (extract_locations [lodge_file] lodge_plan))
    as Hvalid by by_evaluation.
  assert (2 ≤ length (extract_locations [lodge_file] lodge_plan)) as Hlen
    by by_evaluation.
  destruct (hotels lodge_plan ≫= hotel_locations [lodge_file])
    as [|l more] eqn:Hhotel; [by vm_compute in Hhotel|].
  destruct (day_one_starts_at_hotel grid_call grid_call_returns [lodge_file]
              lodge_plan l more Hhotel Hvalid Hlen)
    as (r & routes & v & vs & Hrun & Hroute & Hv).
  exists l, more, r, routes, v, vs.
  split; [reflexivity|]. split; [exact Hrun|]. split; [exact Hroute | exact Hv].
Defined.

(** Two days of one restaurant each: no distance is asked for, and the
    latitude of 500 of the second restaurant goes unnoticed by a library
    that would raise on it. *)
Lemma calculate_route_single_venue_days_witness :
  ¬ Forall valid_location (extract_locations [] two_day_plan) ∧
  ∃ first second,
    calculate_route strict_call [] two_day_plan
    = Ret (Routes [("Day 1"%string, DayRoute [first] 0%Qc);
                   ("Day 2"%string, DayRoute [second] 0%Qc)]).
Proof.
  split; [by_evaluation|].
  assert (Forall (λ dl : string * list pydict, length dl.2 ≤ 1)
            (group_by_day (extract_locations [] two_day_plan))) as Hsingle
    by by_evaluation.
  pose proof (calculate_route_single_venue_days strict_call [] two_day_plan
                Hsingle) as Hrun.
  do 2 eexists. etransitivity; [exact Hrun|]. by vm_compute.
Defined.

Lemma get_hotel_coordinates_first_match_witness :
  ∃ silent before l after later,
    take 5 [Some [None]; lodge_file]
    = silent ++ Some (before ++ l :: after) :: later ∧
    Forall (file_silent "Lodge") silent ∧
    Forall (λ l', ∀ c', ¬ line_matches "Lodge" l' c') before ∧
    line_matches "Lodge" l (dec 492 10, dec (-1231) 10).
Proof.
  apply (get_hotel_coordinates_first_match [Some [None]; lodge_file]
           "Lodge" "" (dec 492 10, dec (-1231) 10)).
  reflexivity.
Defined.

(** The lodge is in the third file; the second cannot be opened. *)
Lemma get_hotel_coordinates_stops_at_unreadable_witness :
  get_hotel_coordinates [lodge_file] "Lodge" ""
  = Some (dec 492 10, dec (-1231) 10) ∧
  get_hotel_coordinates ([Some [None]] ++ None :: [lodge_file]) "Lodge" ""
  = None.
Proof.
  split; [reflexivity|].
  apply (get_hotel_coordinates_stops_at_unreadable [Some [None]] [lodge_file]
           "Lodge" "").
  constructor; [|constructor]. exists [None]. split; [reflexivity|].
  constructor; [|constructor].
  apply (proj1 (line_coordinates_none "Lodge" None)). reflexivity.
Defined.

Lemma hotel_locations_when_witness :
  ∃ l, hotel_locations [lodge_file] lodge = [l] ∧
       nums l !! "lat" = Some (dec 492 10) ∧
       nums l !! "lng" = Some (dec (-1231) 10).
Proof.
  apply (hotel_locations_when [lodge_file] lodge (dec 492 10)
           (dec (-1231) 10)).
  split; [by_evaluation|]. split; [by_evaluation|].
  right. split; [reflexivity|]. split; reflexivity.
Defined.

Lemma cluster_by_proximity_order_witness :
  ∃ clusters,
    cluster_by_proximity grid_call three_venues (num 5) = Ret clusters ∧
    Forall (λ c, c `sublist_of` three_venues) clusters ∧
    omap head clusters `sublist_of` three_venues ∧
    head (omap head clusters) = head three_venues ∧
    length clusters ≤ 3.
Proof.
  assert (Forall valid_venue three_venues) as Hvalid by by_evaluation.
  exact (cluster_by_proximity_order grid_call grid_call_returns three_venues
           (num 5) Hvalid).
Defined.

(** With a radius of 5 km the three venues are neither one cluster nor
    three; with a radius of 1000 km they are one. *)
Lemma cluster_by_proximity_extremes_witness :
  cluster_by_proximity grid_call three_venues (num 1000)
  = Ret [three_venues] ∧
  cluster_by_proximity grid_call three_venues (num 5)
  ≠ Ret ((λ v, [v]) <$> three_venues).
Proof.
  assert (Forall valid_venue three_venues) as Hvalid by by_evaluation.
  split.
  - apply (cluster_by_proximity_extremes grid_call grid_call_returns
             (venue "Harbour" (dec 4928 100) (dec (-12312) 100))
             [venue "Lake" (dec 5000 100) (dec (-11950) 100);
              venue "Market" (dec 4929 100) (dec (-12310) 100)]
             (num 1000) Hvalid).
    unfold within_radius. by_evaluation.
  - intros Hrun.
    apply (cluster_by_proximity_extremes grid_call grid_call_returns
             (venue "Harbour" (dec 4928 100) (dec (-12312) 100))
             [venue "Lake" (dec 5000 100) (dec (-11950) 100);
              venue "Market" (dec 4929 100) (dec (-12310) 100)]
             (num 5) Hvalid) in Hrun.
    apply StronglySorted_inv in Hrun as [_ Hfar].
    apply Forall_cons in Hfar as [_ Hfar].
    apply Forall_cons in Hfar as [Hfar _].
    apply Hfar. unfold within_radius. by_evaluation.
Defined.

Lemma calculate_travel_time_monotone_witness :
  (calculate_travel_time (num 1) "walking"
   ≤ calculate_travel_time (num 2) "walking")%Qc ∧
  calculate_travel_time 0%Qc "walking" = 0%Qc.
Proof.
  assert (num 1 ≤ num 2)%Qc as Hle by by_evaluation.
  destruct (calculate_travel_time_monotone (num 1) (num 2) "walking" Hle)
    as (Hmono & Hzero & _).
  split; [exact Hmono | exact Hzero].
Defined.

Lemma faster_mode_never_slower_witness :
  (calculate_travel_time (num 10) "cycling"
   ≤ calculate_travel_time (num 10) "walking")%Qc.
Proof.
  apply (faster_mode_never_slower (num 10) "cycling" "walking");
    by_evaluation.
Defined.

(** No service can be reached: the route is the estimate. *)
Lemma get_route_returns_witness :
  ∃ r,
    get_route grid_call osrm_down google_down (MkTrafficAPI None true)
      (num 49, num (-123)) (num 50, num (-123)) "cycling" = Ret r ∧
    (live_answer r
     ∨ estimate (grid_km (num 49, num (-123)) (num 50, num (-123)))
         "cycling" r).
Proof.
  assert (valid_coordinate (num 49, num (-123))) as Ho by by_evaluation.
  assert (valid_coordinate (num 50, num (-123))) as Hd by by_evaluation.
  exact (get_route_returns grid_call osrm_down google_down
           (MkTrafficAPI None true) (num 49, num (-123))
           (num 50, num (-123)) "cycling" grid_call_returns Ho Hd).
Defined.

(** No service can be reached and the library raises on a latitude of
    500: so does [get_route]. *)
Lemma get_route_escalates_witness :
  get_route strict_call osrm_down google_down (MkTrafficAPI None true)
    (num 500, num (-123)) (num 50, num (-123)) "driving"
  = Raise ValueError.
Proof.
  assert (strict_call (num 500, num (-123)) (num 50, num (-123))
          = Raise ValueError) as Hraise by reflexivity.
  destruct (get_route_escalates strict_call osrm_down google_down
              (MkTrafficAPI None true) (num 500, num (-123))
              (num 50, num (-123)) "driving" ValueError Hraise)
    as [(r & Hr & _)|Hr]; [|exact Hr].
  exfalso. vm_compute in Hr. discriminate Hr.
Defined.

(** The service knows a way on foot only; asked for a cycling route,
    [get_route] returns the way on foot, 15 minutes long. *)
Lemma get_route_walking_profile_witness :
  ∃ r,
    get_route grid_call osrm_on_foot google_down (MkTrafficAPI None true)
      (num 49, num (-123)) (num 50, num (-123)) "cycling" = Ret r ∧
    nums r !! "duration_minutes" = Some (num 15).
Proof.
  destruct (get_route grid_call osrm_on_foot google_down
              (MkTrafficAPI None true) (num 49, num (-123))
              (num 50, num (-123)) "walking") as [r| |] eqn:Hr;
    [|by vm_compute in Hr..].
  assert (live_answer r ∧ nums r !! "duration_minutes" = Some (num 15))
    as [Hlive Hminutes].
  { vm_compute in Hr. injection Hr as <-. split; [|by_evaluation].
    unfold live_answer. by_evaluation. }
  exists r. split; [|exact Hminutes].
  apply (get_route_walking_profile grid_call osrm_on_foot google_down
           (MkTrafficAPI None true) (num 49, num (-123))
           (num 50, num (-123)) "cycling" r); [reflexivity | done | exact Hr
           | exact Hlive].
Defined.

Lemma optimize_route_first_venue_witness :
  ∃ h' first rest total,
    optimize_route grid_call (fresh_heap three_venues) [0; 1; 2]
      (Some (num 50, num (-119)))
    = Ret (h', Routed (first :: rest) total) ∧
    first ∈ [0; 1; 2] ∧
    ∀ a, a ∈ [0; 1; 2] →
      (grid_km (num 50, num (-119)) (coords_of (fresh_heap three_venues first))
       ≤ grid_km (num 50, num (-119)) (coords_of (fresh_heap three_venues a)))%Qc.
Proof.
  assert (Forall (λ a, valid_venue (fresh_heap three_venues a)) [0; 1; 2])
    as Hvalid by by_evaluation.
  assert (valid_coordinate (num 50, num (-119))) as Hstart by by_evaluation.
  exact (optimize_route_first_venue grid_call grid_call_returns
           (fresh_heap three_venues) 0 [1; 2] (Some (num 50, num (-119)))
           Hvalid Hstart).
Defined.

Lemma distance_to_next_drift_witness :
  ∃ h' optimized total,
    optimize_route grid_call (fresh_heap three_venues) [0; 1; 2] None
    = Ret (h', Routed optimized total) ∧
    let shown :=
      sum_km ((λ a, get_num (h' a) "distance_to_next" 0%Qc) <$> optimized) in
    let slack :=
      (Qc_of_Z (Z.of_nat (length optimized - 1)) * dec 1 200)%Qc in
    (total - slack ≤ shown ∧ shown ≤ total + slack)%Qc.
Proof.
  assert (Forall (λ a, valid_venue (fresh_heap three_venues a)) [0; 1; 2])
    as Hvalid by by_evaluation.
  assert (NoDup [0; 1; 2]) as Hnd by by_evaluation.
  assert ([0; 1; 2] ≠ []) as Hne by discriminate.
  exact (distance_to_next_drift grid_call grid_call_returns
           (fresh_heap three_venues) [0; 1; 2] None Hvalid I Hnd Hne).
Defined.

Lemma optimize_route_twice_witness :
  ∃ h' h'' optimized total,
    optimize_route grid_call (fresh_heap three_venues) [0; 1; 2] None
    = Ret (h', Routed optimized total) ∧
    optimize_route grid_call h' optimized None
    = Ret (h'', Routed optimized total).
Proof.
  assert (Forall (λ a, valid_venue (fresh_heap three_venues a)) [0; 1; 2])
    as Hvalid by by_evaluation.
  assert ([0; 1; 2] ≠ []) as Hne by discriminate.
  exact (optimize_route_twice grid_call grid_call_returns
           (fresh_heap three_venues) [0; 1; 2] Hvalid Hne).
Defined.

Lemma cluster_by_proximity_twice_witness :
  ∃ clusters,
    cluster_by_proximity grid_call three_venues (num 5) = Ret clusters ∧
    cluster_by_proximity grid_call (concat clusters) (num 5) = Ret clusters.
Proof.
  assert (Forall valid_venue three_venues) as Hvalid by by_evaluation.
  exact (cluster_by_proximity_twice grid_call grid_call_returns three_venues
           (num 5) Hvalid).
Defined.
